(** * agentsdb-visualization: the real-time synchronisation subsystem

    A shallow embedding of the metrics store ([server/agentdb-service.ts]),
    the data generator ([server/data-generator.ts]), the HTTP and WebSocket
    server ([server/index.ts]), the two client hooks
    ([src/hooks/useAgentDBWebSocket.ts], [src/hooks/useAgentDBPolling.ts])
    and the dashboard that supervises them ([src/components/DashboardNew.tsx]),
    followed by the properties of the specification that were checked
    against them.

    Conventions of the embedding.
    - A timestamp is the text [Date.prototype.toISOString] produces.  The
      embedding keeps the instant that text denotes, in milliseconds since
      the epoch ([Z]); for four-digit years the bytewise order SQLite uses
      on the text and the order of the instants coincide.
    - A metric value is a SQLite REAL.  The generator only writes integers
      ([Math.floor]), and the embedding keeps values in [Z], so that SUM is
      exact.
    - [Date.now()] and [Math.random()] are inputs of the functions that
      call them.
    - Mutable module state (the database handle, the connection set, React
      refs and state) is passed explicitly. *)

From stdpp Require Import base decidable option list sorting numbers strings gmap pretty.

Local Open Scope Z_scope.

(** ** JavaScript numbers and dates *)

Module JS.

(** Finite numbers are kept as integers; [NaN] is what a failed numeric
    coercion gives. *)
Inductive number := NaN | Num (z : Z).

(** The values a JSON request body can hold in one field, [undefined]
    standing for an absent field. *)
Inductive value :=
| undefined
| null
| boolean (b : bool)
| numeric (z : Z)
| text (s : string)
| object.

Section Coercion.
(** [StringToNumber] of ECMA-262 is a parameter of the embedding. *)
Variable StringToNumber : string → number.

(** ECMA-262 [ToNumber], applied by the [*] operator to its operands. *)
Definition ToNumber (v : value) : number :=
  match v with
  | undefined => NaN
  | null => Num 0
  | boolean true => Num 1
  | boolean false => Num 0
  | numeric z => Num z
  | text s => StringToNumber s
  | object => NaN
  end.
End Coercion.

Definition mul (a b : number) : number :=
  match a, b with
  | Num x, Num y => Num (x * y)
  | _, _ => NaN
  end.

Definition sub (a b : number) : number :=
  match a, b with
  | Num x, Num y => Num (x - y)
  | _, _ => NaN
  end.

(** Division by a non-zero constant that divides the dividend, as in
    [(hours * 60 * 60 * 1000) / 60]. *)
Definition div (a b : number) : number :=
  match a, b with
  | Num x, Num y => if decide (y = 0) then NaN else Num (x / y)
  | _, _ => NaN
  end.

(** The largest time value of a [Date]: 8.64e15 ms on either side of the
    epoch. *)
Definition maxTime : Z := 8640000000000000.

(** [new Date(t).toISOString()]: a [RangeError] ([None]) when the time
    value is not a number or out of range, the timestamp otherwise. *)
Definition toISOString (t : number) : option Z :=
  match t with
  | NaN => None
  | Num z => if decide (- maxTime ≤ z ≤ maxTime) then Some z else None
  end.

End JS.

(** ** The metrics store: [AgentDBService] *)

Module Store.

Inductive MetricType := line | bar | pie.

#[global] Instance MetricType_eq_dec : EqDecision MetricType.
Proof. solve_decision. Defined.

(** [interface DashboardMetric], without the [id] the store assigns. *)
Record DashboardMetric := {
  timestamp : Z;
  metricType : MetricType;
  category : option string;
  value : Z;
  metadata : option string
}.

(** A row of table [metrics]. *)
Record Row := {
  row_id : Z;
  row_timestamp : Z;
  row_metricType : MetricType;
  row_category : option string;
  row_value : Z;
  row_metadata : option string
}.

(** The database: the rows of [metrics] in rowid order and the
    AUTOINCREMENT counter. *)
Record DB := {
  rows : list Row;
  last_rowid : Z
}.

Definition empty : DB := {| rows := []; last_rowid := 0 |}.

(** [x || null] on an optional string: [undefined] and the empty string
    are falsy. *)
Definition or_null (x : option string) : option string :=
  match x with
  | Some EmptyString => None
  | _ => x
  end.

(** The row the INSERT statement makes of a metric: [VALUES (?, ?, ?, ?, ?)]
    bound to [timestamp], [metricType], [category || null], [value] and
    [metadata || null]. *)
Definition row_of (id : Z) (m : DashboardMetric) : Row :=
  {| row_id := id;
     row_timestamp := timestamp m;
     row_metricType := metricType m;
     row_category := or_null (category m);
     row_value := value m;
     row_metadata := or_null (metadata m) |}.

(** One execution of the prepared INSERT statement. *)
Definition run_insert (m : DashboardMetric) (db : DB) : DB :=
  let id := last_rowid db + 1 in
  {| rows := rows db ++ [row_of id m]; last_rowid := id |}.

(** [insertMetric]: returns [lastInsertRowid]. *)
Definition insertMetric (m : DashboardMetric) (db : DB) : DB * Z :=
  let db' := run_insert m db in (db', last_rowid db').

(** ** Transactions

    [db.transaction(fn)] of better-sqlite3: BEGIN, the body, COMMIT.  The
    statements of the body work on the transaction's own view; other
    readers see the committed database until COMMIT. *)
Inductive Txn :=
| Idle (committed : DB)
| InTxn (committed working : DB) (todo : list DashboardMetric).

(** What a reader sees. *)
Definition visible (t : Txn) : DB :=
  match t with
  | Idle c => c
  | InTxn c _ _ => c
  end.

(** One step of the [for (const metric of items) insert.run(...)] body, or
    the COMMIT that follows it. *)
Definition txn_step (t : Txn) : Txn :=
  match t with
  | Idle c => Idle c
  | InTxn c w [] => Idle w
  | InTxn c w (m :: todo) => InTxn c (run_insert m w) todo
  end.

Definition txn_begin (items : list DashboardMetric) (db : DB) : Txn :=
  InTxn db db items.

Fixpoint txn_steps (n : nat) (t : Txn) : Txn :=
  match n with
  | O => t
  | S n => txn_steps n (txn_step t)
  end.

(** [insertMany(metrics)]: the transaction run to completion, one step per
    item and one for the COMMIT. *)
Definition insertMany (items : list DashboardMetric) (db : DB) : DB :=
  visible (txn_steps (S (length items)) (txn_begin items db)).

(** [insertMetricsBatch]: returns [metrics.length]. *)
Definition insertMetricsBatch (metrics : list DashboardMetric) (db : DB) : DB * Z :=
  (insertMany metrics db, Z.of_nat (length metrics)).



(** ** Queries *)

(** SQL [LIMIT n]: a negative [n] means no upper bound. *)
Definition sql_limit {A} (n : Z) (l : list A) : list A :=
  if decide (n < 0) then l else take (Z.to_nat n) l.

(** [ORDER BY timestamp DESC]. *)
Definition timestamp_desc (a b : Row) : Prop := row_timestamp b ≤ row_timestamp a.

#[global] Instance timestamp_desc_dec : RelDecision timestamp_desc.
Proof. intros a b. unfold timestamp_desc. apply _. Defined.

Definition order_by_timestamp_desc : list Row → list Row := merge_sort timestamp_desc.

Definition is_type (ty : MetricType) (r : Row) : Prop := row_metricType r = ty.

#[global] Instance is_type_dec ty r : Decision (is_type ty r).
Proof. unfold is_type. apply _. Defined.

Definition point (r : Row) : Z * Z := (row_timestamp r, row_value r).

(** [getLineChartData(limit)]. *)
Definition getLineChartData (limit : Z) (db : DB) : list (Z * Z) :=
  let results :=
    point <$> sql_limit limit (order_by_timestamp_desc (filter (is_type line) (rows db))) in
  reverse results.

(** [GROUP BY category ORDER BY category] with [SUM(value)]: the groups are
    kept in ascending category order, [group_add] adds one row to its
    group. *)
Fixpoint group_add (c : string) (v : Z) (groups : list (string * Z)) : list (string * Z) :=
  match groups with
  | [] => [(c, v)]
  | (c', s) :: rest =>
      if decide (c = c') then (c', s + v) :: rest
      else if decide (String.le c c') then (c, v) :: (c', s) :: rest
      else (c', s) :: group_add c v rest
  end.

Definition group_row (groups : list (string * Z)) (r : Row) : list (string * Z) :=
  match row_category r with
  | Some c => group_add c (row_value r) groups
  | None => groups
  end.

(** [SELECT category, SUM(value) FROM metrics WHERE metricType = ty AND
    category IS NOT NULL GROUP BY category ORDER BY category]. *)
Definition aggregate (ty : MetricType) (db : DB) : list (string * Z) :=
  foldl group_row [] (filter (is_type ty) (rows db)).

Definition getBarChartData : DB → list (string * Z) := aggregate bar.
Definition getPieChartData : DB → list (string * Z) := aggregate pie.

(** What the specification asks of an aggregate entry: the sum of [value]
    over the stored points of that type and category. *)
Definition category_total (ty : MetricType) (c : string) (db : DB) : Z :=
  foldr Z.add 0
    (row_value <$> filter (λ r, row_metricType r = ty ∧ row_category r = Some c) (rows db)).

(** [SELECT COUNT( * ) FROM metrics]. *)
Definition getTotalEvents (db : DB) : Z := Z.of_nat (length (rows db)).

Record DashboardData := {
  lineChartData : list (Z * Z);
  barChartData : list (string * Z);
  pieChartData : list (string * Z);
  totalEvents : Z;
  lastUpdated : Z
}.

(** [getDashboardData], [now] being the instant of [new Date()]. *)
Definition getDashboardData (now : Z) (db : DB) : DashboardData :=
  {| lineChartData := getLineChartData 10 db;
     barChartData := getBarChartData db;
     pieChartData := getPieChartData db;
     totalEvents := getTotalEvents db;
     lastUpdated := now |}.

(** [DELETE FROM metrics WHERE timestamp < ?]: the remaining database and
    [changes]. *)
Definition delete_older (cutoff : Z) (db : DB) : DB * Z :=
  ({| rows := filter (λ r, ¬ row_timestamp r < cutoff) (rows db); last_rowid := last_rowid db |},
   Z.of_nat (length (filter (λ r, row_timestamp r < cutoff) (rows db)))).

(** [cleanupOldData(hoursToKeep)]: [None] when [toISOString] throws. *)
Definition cleanupOldData (now : Z) (hoursToKeep : JS.number) (db : DB) : option (DB * Z) :=
  cutoffTime ← JS.toISOString
    (JS.sub (JS.Num now)
       (JS.mul (JS.mul (JS.mul hoursToKeep (JS.Num 60)) (JS.Num 60)) (JS.Num 1000)));
  Some (delete_older cutoffTime db).

(** ** Notions the properties of the store are stated with *)

(** The [line] rows of the table. *)
Definition line_rows (db : DB) : list Row := filter (is_type line) (rows db).

(** [r] is the row some INSERT made of [m]. *)
Definition stored (r : Row) (m : DashboardMetric) : Prop := ∃ id, r = row_of id m.

(** The order [ORDER BY category] lists distinct categories in. *)
Definition before : relation string := strict String.le.

(** What the specification asks of the aggregate of a type: its entries are
    in ascending order of category, one for each category a stored point
    of the type has, with the sum of [value] over those points. *)
Definition aggregates_of (ty : MetricType) (db : DB) (result : list (string * Z)) : Prop :=
  StronglySorted before result.*1 ∧
  NoDup result.*1 ∧
  (∀ c, c ∈ result.*1 ↔
        ∃ r, r ∈ rows db ∧ row_metricType r = ty ∧ row_category r = Some c) ∧
  (∀ c s, (c, s) ∈ result → s = category_total ty c db).

(** The sum of the entries of a list of groups that carry category [c],
    and the sum of [value] over the rows of a list that do. *)
Definition group_total (c : string) (groups : list (string * Z)) : Z :=
  foldr Z.add 0 (filter (λ p, p.1 = c) groups).*2.

Definition rows_total (c : string) (rs : list Row) : Z :=
  foldr Z.add 0 (row_value <$> filter (λ r, row_category r = Some c) rs).

End Store.

(** ** The data generator: [DataGenerator] *)

Module Generator.
Import Store.

Definition categories : list string :=
  ["Category A"; "Category B"; "Category C"; "Category D"]%string.

(** The entropy of a run: [rnd k] is what the [k]-th evaluation of
    [Math.floor(Math.random() * n)] gives. *)
Definition entropy := nat → Z.

(** The metrics [seedHistoricalData] pushes: a [line] point with a value
    in 20..119, and for a category a point with a value from [base] up. *)
Definition line_metric (ts : Z) (rnd : entropy) (k : nat) : DashboardMetric :=
  {| timestamp := ts; metricType := line; category := None;
     value := rnd k + 20; metadata := None |}.

Definition category_metric (ty : MetricType) (ts : Z) (base : Z) (rnd : entropy)
    (k : nat) (c : string) : DashboardMetric :=
  {| timestamp := ts; metricType := ty; category := Some c;
     value := rnd k + base; metadata := None |}.

(** The [for (let i = 60; i >= 0; i--)] loop of [seedHistoricalData]; the
    [k]-th iteration has [i = 60 - k]. *)
Definition seed_line (now : Z) (intervalMs : JS.number) (rnd : entropy)
    : option (list DashboardMetric) :=
  mapM (λ k : nat,
      ts ← JS.toISOString
              (JS.sub (JS.Num now) (JS.mul (JS.Num (60 - Z.of_nat k)) intervalMs));
      Some (line_metric ts rnd k))
    (seq 0 61).

(** [this.categories.forEach(category => metrics.push({...}))], the draws
    starting at index [k0]. *)
Definition seed_categories (ty : MetricType) (now : Z) (base : Z) (k0 : nat) (rnd : entropy)
    : option (list DashboardMetric) :=
  mapM (λ kc : nat * string,
      ts ← JS.toISOString (JS.Num now);
      Some (category_metric ty ts base rnd (k0 + kc.1) kc.2))
    (imap (λ k c, (k, c)) categories).

(** [seedHistoricalData(hours)]: [None] when building the metrics throws,
    the new database and the count otherwise. *)
Definition seedHistoricalData (now : Z) (rnd : entropy) (hours : JS.number) (db : DB)
    : option (DB * Z) :=
  let intervalMs :=
    JS.div (JS.mul (JS.mul (JS.mul hours (JS.Num 60)) (JS.Num 60)) (JS.Num 1000)) (JS.Num 60) in
  lines ← seed_line now intervalMs rnd;
  bars ← seed_categories bar now 100 61 rnd;
  pies ← seed_categories pie now 50 65 rnd;
  Some (insertMetricsBatch (lines ++ bars ++ pies) db).

(** [generateRealtimeData]: one [line] point and one delta per category,
    written in one batch. *)
Definition generateRealtimeData (now : Z) (rnd : entropy) (db : DB)
    : option (DB * list DashboardMetric) :=
  ts ← JS.toISOString (JS.Num now);
  let delta ty base k0 :=
    imap (λ k c, {| timestamp := ts; metricType := ty; category := Some c;
                    value := rnd (k0 + k)%nat - base; metadata := None |}) categories in
  let metrics :=
    {| timestamp := ts; metricType := line; category := None;
       value := rnd 0%nat + 20; metadata := None |}
    :: delta bar 25 1%nat ++ delta pie 15 5%nat in
  Some ((insertMetricsBatch metrics db).1, metrics).

(** The metrics one hour of history consists of: 61 [line] points one
    minute apart, the last one at [now], and a [bar] and a [pie] point per
    category. *)
Definition hour_lines (now : Z) (rnd : entropy) : list DashboardMetric :=
  (λ k : nat, line_metric (now - (60 - Z.of_nat k) * 60000) rnd k) <$> seq 0 61.

Definition hour_categories (ty : MetricType) (now base : Z) (k0 : nat) (rnd : entropy)
    : list DashboardMetric :=
  imap (λ k c, category_metric ty now base rnd (k0 + k) c) categories.

Definition hour (now : Z) (rnd : entropy) : list DashboardMetric :=
  hour_lines now rnd ++ hour_categories bar now 100 61 rnd ++ hour_categories pie now 50 65 rnd.

End Generator.

(** ** The [readyState] of a WebSocket, in the browser and in [ws] *)

Module WebSocket.

Inductive ReadyState := CONNECTING | OPEN | CLOSING | CLOSED.

#[global] Instance ReadyState_eq_dec : EqDecision ReadyState.
Proof. solve_decision. Defined.

End WebSocket.

(** ** The server: [server/index.ts] *)

Module Server.
Import Store WebSocket.

Inductive MessageType := initial | update.

Record Message := {
  msg_type : MessageType;
  msg_data : DashboardData;
  msg_timestamp : option Z
}.

(** A connection of the [ws] library as the server sees it: its state,
    what has been handed to [send] so far, and whether [send] raises on
    it. *)
Record Client := {
  client_id : nat;
  readyState : ReadyState;
  sent : list Message;
  send_throws : bool
}.

(** [client.send(message)]: [None] when it raises. *)
Definition send (m : Message) (c : Client) : option Client :=
  if send_throws c then None
  else Some {| client_id := client_id c; readyState := readyState c;
               sent := sent c ++ [m]; send_throws := send_throws c |}.

(** The module state: the database and [clients], a [Set] iterated in
    insertion order. *)
Record State := {
  agentDB : DB;
  clients : list Client
}.

(** How a call ends: normally, or with an exception that escapes it. *)
Inductive Outcome := Returned | Threw.

(** [clients.forEach(client => { if (client.readyState === OPEN)
    client.send(message) })]: an exception raised by the callback ends
    the iteration. *)
Fixpoint forEach_send (m : Message) (cs : list Client) : list Client * Outcome :=
  match cs with
  | [] => ([], Returned)
  | c :: rest =>
      if decide (readyState c = OPEN) then
        match send m c with
        | Some c' => let r := forEach_send m rest in (c' :: r.1, r.2)
        | None => (c :: rest, Threw)
        end
      else let r := forEach_send m rest in (c :: r.1, r.2)
  end.

(** The message of a broadcast: [{ type: 'update', data, timestamp }] with
    the snapshot of the moment. *)
Definition update_message (now : Z) (st : State) : Message :=
  {| msg_type := update;
     msg_data := getDashboardData now (agentDB st);
     msg_timestamp := Some now |}.

(** [broadcastUpdate]. *)
Definition broadcastUpdate (now : Z) (st : State) : State * Outcome :=
  if decide (length (clients st) = 0%nat) then (st, Returned)
  else
    let r := forEach_send (update_message now st) (clients st) in
    ({| agentDB := agentDB st; clients := r.1 |}, r.2).

(** [clients.delete(ws)], in the [close] and [error] handlers of a
    connection. *)
Definition delete_client (id : nat) (st : State) : State :=
  {| agentDB := agentDB st;
     clients := filter (λ c, client_id c ≠ id) (clients st) |}.

(** The [connection] handler: the new socket joins the set and is sent the
    [initial] message. *)
Definition on_connection (now : Z) (c : Client) (st : State) : State * Outcome :=
  let message := {| msg_type := initial; msg_data := getDashboardData now (agentDB st);
                    msg_timestamp := None |} in
  match send message c with
  | Some c' => ({| agentDB := agentDB st; clients := clients st ++ [c'] |}, Returned)
  | None => ({| agentDB := agentDB st; clients := clients st ++ [c] |}, Threw)
  end.

(** What a connection holds after a broadcast that went through: the
    message, if the connection was open. *)
Definition delivered (m : Message) (c : Client) : Client :=
  if decide (readyState c = OPEN)
  then {| client_id := client_id c; readyState := readyState c;
          sent := sent c ++ [m]; send_throws := send_throws c |}
  else c.

(** An HTTP response: the status and the JSON body's fields. *)
Record Response := {
  status : Z;
  success : bool;
  message : option string;
  count : option Z;
  error : option string
}.

Definition failure (msg : string) : Response :=
  {| status := 500; success := false; message := None; count := None; error := Some msg |}.

Section Handlers.
Variable StringToNumber : string → JS.number.

(** [const { hours = d } = req.body]: the default applies to an absent
    field only. *)
Definition with_default (d : Z) (hours : JS.value) : JS.value :=
  match hours with
  | JS.undefined => JS.numeric d
  | v => v
  end.

(** [app.post('/api/seed', ...)]. *)
Definition post_seed (now : Z) (rnd : Generator.entropy) (hours : JS.value) (st : State)
    : State * Response :=
  let hours := with_default 1 hours in
  match Generator.seedHistoricalData now rnd (JS.ToNumber StringToNumber hours) (agentDB st) with
  | Some (db', n) =>
      ({| agentDB := db'; clients := clients st |},
       {| status := 200; success := true;
          message := Some ("Seeded " +:+ pretty n +:+ " metrics")%string;
          count := Some n; error := None |})
  | None =>
      (st, failure "Failed to seed data")
  end.

(** [app.delete('/api/cleanup', ...)]; [count] holds the [deleted]
    field. *)
Definition delete_cleanup (now : Z) (hours : JS.value) (st : State) : State * Response :=
  let hours := with_default 24 hours in
  match cleanupOldData now (JS.ToNumber StringToNumber hours) (agentDB st) with
  | Some (db', n) =>
      ({| agentDB := db'; clients := clients st |},
       {| status := 200; success := true;
          message := Some ("Deleted " +:+ pretty n +:+ " old metrics")%string;
          count := Some n; error := None |})
  | None =>
      (st, failure "Failed to cleanup data")
  end.
End Handlers.

End Server.

(** ** The push transport of the client: [useAgentDBWebSocket] *)

Module WebSocketHook.
Import Store WebSocket.

Record Options := {
  url_ok : bool;  (* whether [new WebSocket(url)] accepts the URL *)
  reconnectInterval : Z;
  maxReconnectAttempts : nat
}.

Definition defaults : Options :=
  {| url_ok := true; reconnectInterval := 3000; maxReconnectAttempts := 10 |}.

Definition connection_error : string := "WebSocket connection error".
Definition max_attempts_reached : string := "Max reconnection attempts reached".
Definition connection_failed : string := "Failed to establish WebSocket connection".

(** What the hook lets its caller observe, in the order it happens: the
    messages given to [setError] and the three callbacks. *)
Inductive Signal :=
| SetError (msg : string)
| OnError
| OnConnect
| OnDisconnect.

#[global] Instance Signal_eq_dec : EqDecision Signal.
Proof. solve_decision. Defined.

(** The hook's React state ([data] to [reconnectAttempt]), its refs
    ([wsRef] to [intentionalCloseRef]) and the part of the browser it
    created: the sockets that are not closed yet with their [readyState]
    (a socket that is absent is CLOSED), the timeouts that are pending and
    the next fresh handle. *)
Record Hook := {
  data : option DashboardData;
  isConnected : bool;
  error : option string;
  reconnectAttempt : nat;
  wsRef : option nat;
  reconnectTimeoutRef : option nat;
  mountedRef : bool;
  reconnectAttemptRef : nat;
  intentionalCloseRef : bool;
  sockets : gmap nat ReadyState;
  timers : gset nat;
  next : nat;
  log : list Signal
}.

Definition set_data (x : option DashboardData) (h : Hook) : Hook :=
  {| data := x;
     isConnected := isConnected h;
     error := error h;
     reconnectAttempt := reconnectAttempt h;
     wsRef := wsRef h;
     reconnectTimeoutRef := reconnectTimeoutRef h;
     mountedRef := mountedRef h;
     reconnectAttemptRef := reconnectAttemptRef h;
     intentionalCloseRef := intentionalCloseRef h;
     sockets := sockets h;
     timers := timers h;
     next := next h;
     log := log h |}.

Definition set_isConnected (x : bool) (h : Hook) : Hook :=
  {| data := data h;
     isConnected := x;
     error := error h;
     reconnectAttempt := reconnectAttempt h;
     wsRef := wsRef h;
     reconnectTimeoutRef := reconnectTimeoutRef h;
     mountedRef := mountedRef h;
     reconnectAttemptRef := reconnectAttemptRef h;
     intentionalCloseRef := intentionalCloseRef h;
     sockets := sockets h;
     timers := timers h;
     next := next h;
     log := log h |}.

Definition set_error (x : option string) (h : Hook) : Hook :=
  {| data := data h;
     isConnected := isConnected h;
     error := x;
     reconnectAttempt := reconnectAttempt h;
     wsRef := wsRef h;
     reconnectTimeoutRef := reconnectTimeoutRef h;
     mountedRef := mountedRef h;
     reconnectAttemptRef := reconnectAttemptRef h;
     intentionalCloseRef := intentionalCloseRef h;
     sockets := sockets h;
     timers := timers h;
     next := next h;
     log := log h |}.

Definition set_reconnectAttempt (x : nat) (h : Hook) : Hook :=
  {| data := data h;
     isConnected := isConnected h;
     error := error h;
     reconnectAttempt := x;
     wsRef := wsRef h;
     reconnectTimeoutRef := reconnectTimeoutRef h;
     mountedRef := mountedRef h;
     reconnectAttemptRef := reconnectAttemptRef h;
     intentionalCloseRef := intentionalCloseRef h;
     sockets := sockets h;
     timers := timers h;
     next := next h;
     log := log h |}.

Definition set_wsRef (x : option nat) (h : Hook) : Hook :=
  {| data := data h;
     isConnected := isConnected h;
     error := error h;
     reconnectAttempt := reconnectAttempt h;
     wsRef := x;
     reconnectTimeoutRef := reconnectTimeoutRef h;
     mountedRef := mountedRef h;
     reconnectAttemptRef := reconnectAttemptRef h;
     intentionalCloseRef := intentionalCloseRef h;
     sockets := sockets h;
     timers := timers h;
     next := next h;
     log := log h |}.

Definition set_reconnectTimeoutRef (x : option nat) (h : Hook) : Hook :=
  {| data := data h;
     isConnected := isConnected h;
     error := error h;
     reconnectAttempt := reconnectAttempt h;
     wsRef := wsRef h;
     reconnectTimeoutRef := x;
     mountedRef := mountedRef h;
     reconnectAttemptRef := reconnectAttemptRef h;
     intentionalCloseRef := intentionalCloseRef h;
     sockets := sockets h;
     timers := timers h;
     next := next h;
     log := log h |}.

Definition set_mountedRef (x : bool) (h : Hook) : Hook :=
  {| data := data h;
     isConnected := isConnected h;
     error := error h;
     reconnectAttempt := reconnectAttempt h;
     wsRef := wsRef h;
     reconnectTimeoutRef := reconnectTimeoutRef h;
     mountedRef := x;
     reconnectAttemptRef := reconnectAttemptRef h;
     intentionalCloseRef := intentionalCloseRef h;
     sockets := sockets h;
     timers := timers h;
     next := next h;
     log := log h |}.

Definition set_reconnectAttemptRef (x : nat) (h : Hook) : Hook :=
  {| data := data h;
     isConnected := isConnected h;
     error := error h;
     reconnectAttempt := reconnectAttempt h;
     wsRef := wsRef h;
     reconnectTimeoutRef := reconnectTimeoutRef h;
     mountedRef := mountedRef h;
     reconnectAttemptRef := x;
     intentionalCloseRef := intentionalCloseRef h;
     sockets := sockets h;
     timers := timers h;
     next := next h;
     log := log h |}.

Definition set_intentionalCloseRef (x : bool) (h : Hook) : Hook :=
  {| data := data h;
     isConnected := isConnected h;
     error := error h;
     reconnectAttempt := reconnectAttempt h;
     wsRef := wsRef h;
     reconnectTimeoutRef := reconnectTimeoutRef h;
     mountedRef := mountedRef h;
     reconnectAttemptRef := reconnectAttemptRef h;
     intentionalCloseRef := x;
     sockets := sockets h;
     timers := timers h;
     next := next h;
     log := log h |}.

Definition set_sockets (x : gmap nat ReadyState) (h : Hook) : Hook :=
  {| data := data h;
     isConnected := isConnected h;
     error := error h;
     reconnectAttempt := reconnectAttempt h;
     wsRef := wsRef h;
     reconnectTimeoutRef := reconnectTimeoutRef h;
     mountedRef := mountedRef h;
     reconnectAttemptRef := reconnectAttemptRef h;
     intentionalCloseRef := intentionalCloseRef h;
     sockets := x;
     timers := timers h;
     next := next h;
     log := log h |}.

Definition set_timers (x : gset nat) (h : Hook) : Hook :=
  {| data := data h;
     isConnected := isConnected h;
     error := error h;
     reconnectAttempt := reconnectAttempt h;
     wsRef := wsRef h;
     reconnectTimeoutRef := reconnectTimeoutRef h;
     mountedRef := mountedRef h;
     reconnectAttemptRef := reconnectAttemptRef h;
     intentionalCloseRef := intentionalCloseRef h;
     sockets := sockets h;
     timers := x;
     next := next h;
     log := log h |}.

Definition set_next (x : nat) (h : Hook) : Hook :=
  {| data := data h;
     isConnected := isConnected h;
     error := error h;
     reconnectAttempt := reconnectAttempt h;
     wsRef := wsRef h;
     reconnectTimeoutRef := reconnectTimeoutRef h;
     mountedRef := mountedRef h;
     reconnectAttemptRef := reconnectAttemptRef h;
     intentionalCloseRef := intentionalCloseRef h;
     sockets := sockets h;
     timers := timers h;
     next := x;
     log := log h |}.

Definition set_log (x : list Signal) (h : Hook) : Hook :=
  {| data := data h;
     isConnected := isConnected h;
     error := error h;
     reconnectAttempt := reconnectAttempt h;
     wsRef := wsRef h;
     reconnectTimeoutRef := reconnectTimeoutRef h;
     mountedRef := mountedRef h;
     reconnectAttemptRef := reconnectAttemptRef h;
     intentionalCloseRef := intentionalCloseRef h;
     sockets := sockets h;
     timers := timers h;
     next := next h;
     log := x |}.

Definition emit (x : Signal) (h : Hook) : Hook := set_log (log h ++ [x]) h.

(** [setError(msg)]. *)
Definition setError (msg : option string) (h : Hook) : Hook :=
  let h := set_error msg h in
  match msg with
  | Some m => emit (SetError m) h
  | None => h
  end.

(** [new WebSocket(url)]: a socket in state CONNECTING. *)
Definition new_WebSocket (h : Hook) : nat * Hook :=
  let ws := next h in
  (ws, set_next (S ws) (set_sockets (<[ws := CONNECTING]> (sockets h)) h)).

(** [ws.close()]: a socket that is connecting or open starts closing, its
    [close] event comes later. *)
Definition close (ws : nat) (h : Hook) : Hook :=
  match sockets h !! ws with
  | Some CONNECTING | Some OPEN => set_sockets (<[ws := CLOSING]> (sockets h)) h
  | _ => h
  end.

(** [setTimeout(...)] and [clearTimeout(t)]. *)
Definition setTimeout (h : Hook) : nat * Hook :=
  let t := next h in
  (t, set_next (S t) (set_timers ({[t]} ∪ timers h) h)).

Definition clearTimeout (t : nat) (h : Hook) : Hook :=
  set_timers (timers h ∖ {[t]}) h.

(** [connect]. *)
Definition connect (o : Options) (h : Hook) : Hook :=
  if negb (mountedRef h) then h
  else if url_ok o then
    let (ws, h) := new_WebSocket h in
    set_wsRef (Some ws) h
  else setError (Some connection_failed) h.

(** [ws.onopen]. *)
Definition onopen (h : Hook) : Hook :=
  let h := set_isConnected true h in
  let h := setError None h in
  let h := set_reconnectAttemptRef 0 h in
  let h := set_reconnectAttempt 0 h in
  emit OnConnect h.

(** [ws.onmessage]: [None] is a payload [JSON.parse] rejects. *)
Definition onmessage (payload : option DashboardData) (h : Hook) : Hook :=
  match payload with
  | Some d => set_data (Some d) h
  | None => h
  end.

(** [ws.onerror]. *)
Definition onerror (h : Hook) : Hook :=
  emit OnError (setError (Some connection_error) h).

(** [ws.onclose]. *)
Definition onclose (o : Options) (h : Hook) : Hook :=
  let h := set_isConnected false h in
  let h := set_wsRef None h in
  let h := emit OnDisconnect h in
  if intentionalCloseRef h then set_intentionalCloseRef false h
  else if mountedRef h && (reconnectAttemptRef h <? maxReconnectAttempts o)%nat then
    let h := set_reconnectAttemptRef (reconnectAttemptRef h + 1) h in
    let h := set_reconnectAttempt (reconnectAttemptRef h) h in
    let (t, h) := setTimeout h in
    set_reconnectTimeoutRef (Some t) h
  else if (maxReconnectAttempts o <=? reconnectAttemptRef h)%nat then
    setError (Some max_attempts_reached) h
  else h.

(** The hook as [useState] and [useRef] set it up. *)
Definition initial : Hook :=
  {| data := None; isConnected := false; error := None; reconnectAttempt := 0;
     wsRef := None; reconnectTimeoutRef := None; mountedRef := true;
     reconnectAttemptRef := 0; intentionalCloseRef := false;
     sockets := ∅; timers := ∅; next := 0; log := [] |}.

(** The effect that runs on mount, and its cleanup. *)
Definition mount (o : Options) : Hook :=
  connect o (set_mountedRef true initial).

Definition cleanup (h : Hook) : Hook :=
  let h := set_mountedRef false h in
  let h := match reconnectTimeoutRef h with
           | Some t => clearTimeout t h
           | None => h
           end in
  match wsRef h with
  | Some ws =>
      let h := set_intentionalCloseRef true h in
      let h := match sockets h !! ws with
               | Some OPEN | Some CONNECTING => close ws h
               | _ => h
               end in
      set_wsRef None h
  | None => h
  end.

(** [reconnect], the manual reconnect the hook returns. *)
Definition reconnect (o : Options) (h : Hook) : Hook :=
  let h := match wsRef h with
           | Some ws => close ws h
           | None => h
           end in
  let h := set_reconnectAttemptRef 0 h in
  let h := set_reconnectAttempt 0 h in
  connect o h.

(** What can happen to a mounted hook: the browser reports on one of its
    sockets or fires one of its timeouts, the caller asks to reconnect, the
    component unmounts. *)
Inductive Event :=
| Opened (ws : nat)
| Message (ws : nat) (payload : option DashboardData)
| Errored (ws : nat)
| Closed (ws : nat)
| TimerFired (t : nat)
| Reconnect
| Unmount.

(** One event; [None] when the browser cannot produce it in this state. *)
Definition step (o : Options) (ev : Event) (h : Hook) : option Hook :=
  match ev with
  | Opened ws =>
      if decide (sockets h !! ws = Some CONNECTING)
      then Some (onopen (set_sockets (<[ws := OPEN]> (sockets h)) h))
      else None
  | Message ws payload =>
      if decide (sockets h !! ws = Some OPEN) then Some (onmessage payload h) else None
  | Errored ws =>
      if decide (is_Some (sockets h !! ws)) then Some (onerror h) else None
  | Closed ws =>
      if decide (is_Some (sockets h !! ws))
      then Some (onclose o (set_sockets (delete ws (sockets h)) h))
      else None
  | TimerFired t =>
      if decide (t ∈ timers h)
      then Some (connect o (set_timers (timers h ∖ {[t]}) h))
      else None
  | Reconnect => Some (reconnect o h)
  | Unmount => Some (cleanup h)
  end.

Fixpoint run (o : Options) (evs : list Event) (h : Hook) : option Hook :=
  match evs with
  | [] => Some h
  | ev :: evs => h' ← step o ev h; run o evs h'
  end.

(** The states of the specification's transition table, read off the
    hook. *)
Inductive Phase := DISCONNECTED | CONNECTING_ | OPEN_ | RECONNECT_WAIT | FAILED.

Definition phase (h : Hook) : Phase :=
  match wsRef h with
  | Some ws =>
      match sockets h !! ws with
      | Some OPEN => OPEN_
      | Some CONNECTING => CONNECTING_
      | _ => DISCONNECTED
      end
  | None =>
      if decide (timers h = ∅) then
        if decide (error h = Some max_attempts_reached) then FAILED else DISCONNECTED
      else RECONNECT_WAIT
  end.

(** A connection attempt that fails: the browser fires [error], then
    [close], on the socket the hook holds. *)
Definition fail_connection (o : Options) (h : Hook) : option Hook :=
  ws ← wsRef h;
  h ← step o (Errored ws) h;
  step o (Closed ws) h.

(** The pending reconnect timeout fires. *)
Definition retry (o : Options) (h : Hook) : option Hook :=
  t ← reconnectTimeoutRef h;
  step o (TimerFired t) h.

(** The next connection attempt fails: the one under way, or else the one
    the pending timeout starts. *)
Definition failure (o : Options) (h : Hook) : option Hook :=
  match wsRef h with
  | Some _ => fail_connection o h
  | None => h ← retry o h; fail_connection o h
  end.

Fixpoint failures (o : Options) (n : nat) (h : Hook) : option Hook :=
  match n with
  | O => Some h
  | S n => h ← failure o h; failures o n h
  end.

(** How often the hook has reported that the attempts are used up. *)
Definition times_failed (h : Hook) : nat :=
  length (filter (λ x, x = SetError max_attempts_reached) (log h)).

(** The states a session goes through while its connection attempts fail
    one after the other: an attempt under way after [k] failures, the wait
    for the next attempt after [k] failures, and the end of the attempts. *)
Definition Connecting (k : nat) (h : Hook) : Prop :=
  mountedRef h = true ∧ intentionalCloseRef h = false ∧ reconnectAttemptRef h = k ∧
  times_failed h = 0%nat ∧ timers h = ∅ ∧
  ∃ ws, wsRef h = Some ws ∧ sockets h = {[ws := CONNECTING]}.

Definition Waiting (k : nat) (h : Hook) : Prop :=
  mountedRef h = true ∧ intentionalCloseRef h = false ∧ reconnectAttemptRef h = k ∧
  times_failed h = 0%nat ∧ wsRef h = None ∧ sockets h = ∅ ∧
  ∃ t, reconnectTimeoutRef h = Some t ∧ timers h = {[t]}.

Definition Exhausted (h : Hook) : Prop :=
  error h = Some max_attempts_reached ∧ times_failed h = 1%nat ∧
  wsRef h = None ∧ sockets h = ∅ ∧ timers h = ∅.

(** What holds of a mounted hook whose [reconnect] is never called: it has
    one socket, or one pending timeout, or neither, and once it has
    reported that the attempts are used up it has neither. *)
Definition Single (h : Hook) : Prop :=
  mountedRef h = true ∧ intentionalCloseRef h = false ∧
  (error h = None ∨ error h = Some connection_error ∨ error h = Some connection_failed ∨
   error h = Some max_attempts_reached ∧ sockets h = ∅ ∧ timers h = ∅) ∧
  ((∃ ws st, sockets h = {[ws := st]} ∧ timers h = ∅) ∨
   sockets h = ∅ ∧ (timers h = ∅ ∨ ∃ t, timers h = {[t]})).
End WebSocketHook.

(** ** The pull transport of the client: [useAgentDBPolling] *)

Module PollingHook.
Import Store.

(** The hook's React state ([data] to [lastFetch]), its refs
    ([intervalRef] to [fetchingRef]), the [enabled] option of the last
    render, whether the interval effect of that render left a cleanup
    behind, and the part of the browser the hook created: the intervals
    that are running, the fetches that have not settled and the next fresh
    handle.  [reported] holds the messages given to [onError]. *)
Record Poll := {
  data : option DashboardData;
  loading : bool;
  error : option string;
  lastFetch : option Z;
  intervalRef : option nat;
  mountedRef : bool;
  fetchingRef : bool;
  enabled : bool;
  has_cleanup : bool;
  intervals : gset nat;
  inflight : gset nat;
  next : nat;
  reported : list string
}.

Definition set_data (x : option DashboardData) (p : Poll) : Poll :=
  {| data := x;
     loading := loading p;
     error := error p;
     lastFetch := lastFetch p;
     intervalRef := intervalRef p;
     mountedRef := mountedRef p;
     fetchingRef := fetchingRef p;
     enabled := enabled p;
     has_cleanup := has_cleanup p;
     intervals := intervals p;
     inflight := inflight p;
     next := next p;
     reported := reported p |}.

Definition set_loading (x : bool) (p : Poll) : Poll :=
  {| data := data p;
     loading := x;
     error := error p;
     lastFetch := lastFetch p;
     intervalRef := intervalRef p;
     mountedRef := mountedRef p;
     fetchingRef := fetchingRef p;
     enabled := enabled p;
     has_cleanup := has_cleanup p;
     intervals := intervals p;
     inflight := inflight p;
     next := next p;
     reported := reported p |}.

Definition set_error (x : option string) (p : Poll) : Poll :=
  {| data := data p;
     loading := loading p;
     error := x;
     lastFetch := lastFetch p;
     intervalRef := intervalRef p;
     mountedRef := mountedRef p;
     fetchingRef := fetchingRef p;
     enabled := enabled p;
     has_cleanup := has_cleanup p;
     intervals := intervals p;
     inflight := inflight p;
     next := next p;
     reported := reported p |}.

Definition set_lastFetch (x : option Z) (p : Poll) : Poll :=
  {| data := data p;
     loading := loading p;
     error := error p;
     lastFetch := x;
     intervalRef := intervalRef p;
     mountedRef := mountedRef p;
     fetchingRef := fetchingRef p;
     enabled := enabled p;
     has_cleanup := has_cleanup p;
     intervals := intervals p;
     inflight := inflight p;
     next := next p;
     reported := reported p |}.

Definition set_intervalRef (x : option nat) (p : Poll) : Poll :=
  {| data := data p;
     loading := loading p;
     error := error p;
     lastFetch := lastFetch p;
     intervalRef := x;
     mountedRef := mountedRef p;
     fetchingRef := fetchingRef p;
     enabled := enabled p;
     has_cleanup := has_cleanup p;
     intervals := intervals p;
     inflight := inflight p;
     next := next p;
     reported := reported p |}.

Definition set_mountedRef (x : bool) (p : Poll) : Poll :=
  {| data := data p;
     loading := loading p;
     error := error p;
     lastFetch := lastFetch p;
     intervalRef := intervalRef p;
     mountedRef := x;
     fetchingRef := fetchingRef p;
     enabled := enabled p;
     has_cleanup := has_cleanup p;
     intervals := intervals p;
     inflight := inflight p;
     next := next p;
     reported := reported p |}.

Definition set_fetchingRef (x : bool) (p : Poll) : Poll :=
  {| data := data p;
     loading := loading p;
     error := error p;
     lastFetch := lastFetch p;
     intervalRef := intervalRef p;
     mountedRef := mountedRef p;
     fetchingRef := x;
     enabled := enabled p;
     has_cleanup := has_cleanup p;
     intervals := intervals p;
     inflight := inflight p;
     next := next p;
     reported := reported p |}.

Definition set_enabled (x : bool) (p : Poll) : Poll :=
  {| data := data p;
     loading := loading p;
     error := error p;
     lastFetch := lastFetch p;
     intervalRef := intervalRef p;
     mountedRef := mountedRef p;
     fetchingRef := fetchingRef p;
     enabled := x;
     has_cleanup := has_cleanup p;
     intervals := intervals p;
     inflight := inflight p;
     next := next p;
     reported := reported p |}.

Definition set_has_cleanup (x : bool) (p : Poll) : Poll :=
  {| data := data p;
     loading := loading p;
     error := error p;
     lastFetch := lastFetch p;
     intervalRef := intervalRef p;
     mountedRef := mountedRef p;
     fetchingRef := fetchingRef p;
     enabled := enabled p;
     has_cleanup := x;
     intervals := intervals p;
     inflight := inflight p;
     next := next p;
     reported := reported p |}.

Definition set_intervals (x : gset nat) (p : Poll) : Poll :=
  {| data := data p;
     loading := loading p;
     error := error p;
     lastFetch := lastFetch p;
     intervalRef := intervalRef p;
     mountedRef := mountedRef p;
     fetchingRef := fetchingRef p;
     enabled := enabled p;
     has_cleanup := has_cleanup p;
     intervals := x;
     inflight := inflight p;
     next := next p;
     reported := reported p |}.

Definition set_inflight (x : gset nat) (p : Poll) : Poll :=
  {| data := data p;
     loading := loading p;
     error := error p;
     lastFetch := lastFetch p;
     intervalRef := intervalRef p;
     mountedRef := mountedRef p;
     fetchingRef := fetchingRef p;
     enabled := enabled p;
     has_cleanup := has_cleanup p;
     intervals := intervals p;
     inflight := x;
     next := next p;
     reported := reported p |}.

Definition set_next (x : nat) (p : Poll) : Poll :=
  {| data := data p;
     loading := loading p;
     error := error p;
     lastFetch := lastFetch p;
     intervalRef := intervalRef p;
     mountedRef := mountedRef p;
     fetchingRef := fetchingRef p;
     enabled := enabled p;
     has_cleanup := has_cleanup p;
     intervals := intervals p;
     inflight := inflight p;
     next := x;
     reported := reported p |}.

Definition set_reported (x : list string) (p : Poll) : Poll :=
  {| data := data p;
     loading := loading p;
     error := error p;
     lastFetch := lastFetch p;
     intervalRef := intervalRef p;
     mountedRef := mountedRef p;
     fetchingRef := fetchingRef p;
     enabled := enabled p;
     has_cleanup := has_cleanup p;
     intervals := intervals p;
     inflight := inflight p;
     next := next p;
     reported := x |}.

(** How [await fetch(url)] followed by [await response.json()] ends. *)
Inductive FetchResult :=
| Rejected (msg : string)           (* [fetch] or [json] rejects with [Error(msg)] *)
| HttpStatus (status : Z)           (* a response with [ok] false *)
| Body (success : bool) (d : option DashboardData) (err : option string).

(** [fetchData] up to its first [await]. *)
Definition fetchData (p : Poll) : Poll :=
  if negb (mountedRef p) || fetchingRef p || negb (enabled p) then p
  else
    let p := set_fetchingRef true p in
    let r := next p in
    set_next (S r) (set_inflight ({[r]} ∪ inflight p) p).

(** The [finally] block. *)
Definition finally (p : Poll) : Poll :=
  if mountedRef p then set_fetchingRef false (set_loading false p) else p.

(** The [catch] block, [msg] being [err.message]. *)
Definition catch (msg : string) (p : Poll) : Poll :=
  if negb (mountedRef p) then p
  else set_reported (reported p ++ [msg]) (set_error (Some msg) p).

(** [x || 'Failed to fetch data']. *)
Definition or_failed (x : option string) : string :=
  match x with
  | None | Some EmptyString => "Failed to fetch data"
  | Some m => m
  end.

(** [fetchData] from its first [await] on, [now] being the instant of
    [new Date()]. *)
Definition resume (now : Z) (res : FetchResult) (p : Poll) : Poll :=
  let p :=
    match res with
    | Rejected msg => catch msg p
    | HttpStatus st => catch ("HTTP error! status: " +:+ pretty st) p
    | Body success d err =>
        if negb (mountedRef p) then p
        else
          match success, d with
          | true, Some d =>
              set_lastFetch (Some now) (set_error None (set_data (Some d) p))
          | _, _ => catch (or_failed err) p
          end
    end in
  finally p.

(** [setInterval(...)] and [clearInterval(t)]. *)
Definition setInterval (p : Poll) : nat * Poll :=
  let t := next p in
  (t, set_next (S t) (set_intervals ({[t]} ∪ intervals p) p)).

Definition clearInterval (t : nat) (p : Poll) : Poll :=
  set_intervals (intervals p ∖ {[t]}) p.

Definition stop_interval (p : Poll) : Poll :=
  match intervalRef p with
  | Some t => set_intervalRef None (clearInterval t p)
  | None => p
  end.

(** The two effects that depend on [enabled] and [fetchData]: the initial
    fetch and the polling interval. *)
Definition effects (p : Poll) : Poll :=
  let p := if enabled p then fetchData p else p in
  if negb (enabled p) then set_has_cleanup false (stop_interval p)
  else
    let (t, p) := setInterval p in
    set_has_cleanup true (set_intervalRef (Some t) p).

(** The cleanup the interval effect returned, if it returned one; it runs
    once. *)
Definition effect_cleanup (p : Poll) : Poll :=
  if has_cleanup p then set_has_cleanup false (stop_interval p) else p.

Definition initial : Poll :=
  {| data := None; loading := true; error := None; lastFetch := None;
     intervalRef := None; mountedRef := true; fetchingRef := false;
     enabled := false; has_cleanup := false;
     intervals := ∅; inflight := ∅; next := 0; reported := [] |}.

Definition mount (enabled : bool) : Poll := effects (set_enabled enabled initial).

(** A render in which [enabled] or [fetchData] is new: the cleanup of the
    previous render runs, then the effects. *)
Definition render (enabled : bool) (p : Poll) : Poll :=
  effects (set_enabled enabled (effect_cleanup p)).

Definition unmount (p : Poll) : Poll :=
  set_mountedRef false (effect_cleanup p).

(** [refresh]. *)
Definition refresh (p : Poll) : Poll := fetchData (set_loading true p).

Inductive Event :=
| Tick (t : nat)
| Settled (r : nat) (now : Z) (res : FetchResult)
| Refresh
| Render (enabled : bool)
| Unmount.

(** One event; [None] when the browser cannot produce it in this state. *)
Definition step (ev : Event) (p : Poll) : option Poll :=
  match ev with
  | Tick t => if decide (t ∈ intervals p) then Some (fetchData p) else None
  | Settled r now res =>
      if decide (r ∈ inflight p)
      then Some (resume now res (set_inflight (inflight p ∖ {[r]}) p))
      else None
  | Refresh => Some (refresh p)
  | Render b => Some (render b p)
  | Unmount => Some (unmount p)
  end.

Fixpoint run (evs : list Event) (p : Poll) : option Poll :=
  match evs with
  | [] => Some p
  | ev :: evs => p' ← step ev p; run evs p'
  end.


(** The message a failed fetch leaves in [error]. *)
Definition failure_message (res : FetchResult) : string :=
  match res with
  | Rejected msg => msg
  | HttpStatus st => "HTTP error! status: " +:+ pretty st
  | Body _ _ err => or_failed err
  end.


(** The in-flight guard: at most one fetch has not settled, and while one
    has not, [fetchingRef] is set or the hook is unmounted. *)
Definition Guarded (p : Poll) : Prop :=
  (inflight p = ∅ ∨ ∃ r, inflight p = {[r]}) ∧
  (inflight p ≠ ∅ → fetchingRef p = true ∨ mountedRef p = false).

(** [intervalRef] holds the one interval that runs, if one does. *)
Definition Timed (p : Poll) : Prop :=
  intervalRef p = None ∧ intervals p = ∅ ∧ has_cleanup p = false ∨
  ∃ t, intervalRef p = Some t ∧ intervals p = {[t]} ∧ has_cleanup p = true.

End PollingHook.

(** ** The supervisor: [Dashboard] of [DashboardNew.tsx]

    The snackbar and the charts are left out. *)

Module Dashboard.
Import Store.

Inductive ConnectionMode := websocket | polling.

#[global] Instance ConnectionMode_eq_dec : EqDecision ConnectionMode.
Proof. solve_decision. Defined.

Record State := {
  mode : ConnectionMode;
  ws : WebSocketHook.Hook;
  poll : PollingHook.Poll
}.

(** [s.includes(sub)]. *)
Definition includes (sub s : string) : bool :=
  match String.index 0 sub s with
  | Some _ => true
  | None => false
  end.

(** The condition of the fallback effect. *)
Definition wants_fallback (d : State) : bool :=
  bool_decide (mode d = websocket) &&
  match WebSocketHook.error (ws d) with
  | Some e => includes "Max reconnection" e
  | None => false
  end.

(** The effects of one render: those of the polling hook, whose
    [fetchData] is new in every render because [onError] is, with
    [enabled: mode === 'polling']. *)
Definition render_once (d : State) : State :=
  {| mode := mode d; ws := ws d;
     poll := PollingHook.render (bool_decide (mode d = polling)) (poll d) |}.

(** A render and the renders it causes: the fallback effect calls
    [setMode('polling')], which renders again. *)
Definition render (d : State) : State :=
  let d := render_once d in
  if wants_fallback d
  then render_once {| mode := polling; ws := ws d; poll := poll d |}
  else d.

Definition mount (o : WebSocketHook.Options) (defaultMode : ConnectionMode) : State :=
  let d := {| mode := defaultMode;
              ws := WebSocketHook.mount o;
              poll := PollingHook.mount (bool_decide (defaultMode = polling)) |} in
  if wants_fallback d
  then render_once {| mode := polling; ws := ws d; poll := poll d |}
  else d.

(** [handleModeChange(_event, newMode)]: [setMode(newMode)], and the
    render a new mode causes. *)
Definition handleModeChange (newMode : option ConnectionMode) (d : State) : State :=
  match newMode with
  | Some m =>
      if decide (m = mode d) then d
      else render {| mode := m; ws := ws d; poll := poll d |}
  | None => d
  end.

(** What can happen to a mounted dashboard: an event of one of its hooks
    (the dashboard calls neither [reconnect] nor [refresh], and the hooks
    unmount with it), a render, a click on the mode toggle.  React renders
    after an event that changed state; the trace says when. *)
Inductive Event :=
| Push (ev : WebSocketHook.Event)
| Pull (ev : PollingHook.Event)
| Rendered
| ModeChange (newMode : option ConnectionMode).

Definition step (o : WebSocketHook.Options) (ev : Event) (d : State) : option State :=
  match ev with
  | Push WebSocketHook.Unmount | Push WebSocketHook.Reconnect => None
  | Push ev =>
      h ← WebSocketHook.step o ev (ws d);
      Some {| mode := mode d; ws := h; poll := poll d |}
  | Pull (PollingHook.Tick _ as ev) | Pull (PollingHook.Settled _ _ _ as ev) =>
      p ← PollingHook.step ev (poll d);
      Some {| mode := mode d; ws := ws d; poll := p |}
  | Pull _ => None
  | Rendered => Some (render d)
  | ModeChange newMode => Some (handleModeChange newMode d)
  end.

Fixpoint run (o : WebSocketHook.Options) (evs : list Event) (d : State) : option State :=
  match evs with
  | [] => Some d
  | ev :: evs => d' ← step o ev d; run o evs d'
  end.

(** [activeData]. *)
Definition activeData (d : State) : option DashboardData :=
  if decide (mode d = websocket) then WebSocketHook.data (ws d) else PollingHook.data (poll d).

(** Whether a transport can still deliver a snapshot or start a fetch or a
    connection on its own: the push transport has a socket that is not
    closed or a pending timeout, the pull transport a running interval. *)
Definition push_active (d : State) : Prop :=
  WebSocketHook.sockets (ws d) ≠ ∅ ∨ WebSocketHook.timers (ws d) ≠ ∅.

Definition pull_active (d : State) : Prop :=
  PollingHook.intervals (poll d) ≠ ∅.


(** What holds of a mounted dashboard: the invariants of its two hooks,
    and a poll loop that runs exactly in polling mode. *)
Definition Supervised (d : State) : Prop :=
  WebSocketHook.Single (ws d) ∧
  PollingHook.Guarded (poll d) ∧ PollingHook.Timed (poll d) ∧
  PollingHook.mountedRef (poll d) = true ∧
  (mode d = websocket → PollingHook.intervals (poll d) = ∅) ∧
  (mode d = polling → PollingHook.intervals (poll d) ≠ ∅).

End Dashboard.

(** ** More of the store: [getStats], and the store under a sequence of
    writes *)

Module StoreStats.
Import Store.

(** The text of a metric type, the key of [byType]. *)
Definition type_name (ty : MetricType) : string :=
  match ty with
  | line => "line"
  | bar => "bar"
  | pie => "pie"
  end.

Definition count_type (ty : MetricType) (db : DB) : Z :=
  Z.of_nat (length (filter (is_type ty) (rows db))).

(** [SELECT metricType, COUNT( * ) as count FROM metrics GROUP BY
    metricType]: one row for each type that occurs. *)
Definition byTypeResults (db : DB) : list (MetricType * Z) :=
  filter (λ row, row.2 ≠ 0) ((λ ty, (ty, count_type ty db)) <$> [bar; line; pie]).

(** The SQL aggregates MIN and MAX: NULL when there is no row. *)
Definition sql_min (l : list Z) : option Z :=
  match l with
  | [] => None
  | x :: l => Some (foldl Z.min x l)
  end.

Definition sql_max (l : list Z) : option Z :=
  match l with
  | [] => None
  | x :: l => Some (foldl Z.max x l)
  end.

Record Stats := {
  totalMetrics : Z;
  byType : gmap string Z;
  oldestEntry : option Z;
  newestEntry : option Z
}.

(** [getStats]. *)
Definition getStats (db : DB) : Stats :=
  {| totalMetrics := Z.of_nat (length (rows db));
     byType := foldl (λ acc row, <[type_name row.1 := row.2]> acc) ∅ (byTypeResults db);
     oldestEntry := sql_min (row_timestamp <$> rows db);
     newestEntry := sql_max (row_timestamp <$> rows db) |}.

(** The writes of the service, and a sequence of them. *)
Inductive Write :=
| Insert (m : DashboardMetric)
| InsertBatch (metrics : list DashboardMetric)
| Delete (cutoff : Z).

Definition write (w : Write) (db : DB) : DB :=
  match w with
  | Insert m => (insertMetric m db).1
  | InsertBatch metrics => (insertMetricsBatch metrics db).1
  | Delete cutoff => (delete_older cutoff db).1
  end.

Definition writes (ws : list Write) (db : DB) : DB := foldl (λ d w, write w d) db ws.

(** The rowids of the table are in increasing order and none is above the
    AUTOINCREMENT counter. *)
Definition Numbered (db : DB) : Prop :=
  StronglySorted Z.lt (row_id <$> rows db) ∧
  Forall (λ r, row_id r ≤ last_rowid db) (rows db).

(** What a batch adds to the sum of a type and category. *)
Definition batch_sum (ty : MetricType) (c : string) (metrics : list DashboardMetric) : Z :=
  foldr Z.add 0
    (value <$> filter (λ m, metricType m = ty ∧ or_null (category m) = Some c) metrics).

End StoreStats.

(** ** More of the server: start-up, the generation interval and the
    events of a running server *)

Module ServerLoop.
Import Store StoreStats WebSocket Server.

(** The start of [server/index.ts]: an empty database is seeded with one
    hour of history.  [None] when the seeding throws. *)
Definition startup (now : Z) (rnd : Generator.entropy) (db : DB) : option DB :=
  if decide (totalMetrics (getStats db) = 0)
  then fst <$> Generator.seedHistoricalData now rnd (JS.Num 1) db
  else Some db.

(** One firing of the interval [startContinuousGeneration] sets up, with
    the callback [server/index.ts] passes: [generateRealtimeData] at [now],
    then [broadcastUpdate] at [at_].  [None] when an exception leaves the
    callback. *)
Definition generation_tick (now at_ : Z) (rnd : Generator.entropy) (st : State)
    : option State :=
  '(db, _) ← Generator.generateRealtimeData now rnd (agentDB st);
  match broadcastUpdate at_ {| agentDB := db; clients := clients st |} with
  | (st', Returned) => Some st'
  | (_, Threw) => None
  end.

(** The body of the response of [GET /api/dashboard]. *)
Record DashboardResponse := {
  ok : bool;
  payload : DashboardData;
  stamp : Z
}.

Definition get_dashboard (now : Z) (st : State) : DashboardResponse :=
  {| ok := true; payload := getDashboardData now (agentDB st); stamp := now |}.

Section Events.
Variable StringToNumber : string → JS.number.

(** What happens to a running server: a socket connects, a socket closes
    or fails, the generation interval fires, a request comes in. *)
Inductive Event :=
| Connection (c : Client) (now : Z)
| Disconnected (id : nat)
| Generated (now at_ : Z) (rnd : Generator.entropy)
| SeedRequest (now : Z) (rnd : Generator.entropy) (hours : JS.value)
| CleanupRequest (now : Z) (hours : JS.value)
| DashboardRequest (now : Z).

(** One event; [None] when an exception leaves the listener, which ends
    the process. *)
Definition handle (ev : Event) (st : State) : option State :=
  match ev with
  | Connection c now =>
      match on_connection now c st with
      | (st', Returned) => Some st'
      | (_, Threw) => None
      end
  | Disconnected id => Some (delete_client id st)
  | Generated now at_ rnd => generation_tick now at_ rnd st
  | SeedRequest now rnd hours => Some (post_seed StringToNumber now rnd hours st).1
  | CleanupRequest now hours => Some (delete_cleanup StringToNumber now hours st).1
  | DashboardRequest now => Some st
  end.

Fixpoint serve (evs : list Event) (st : State) : option State :=
  match evs with
  | [] => Some st
  | ev :: evs => st' ← handle ev st; serve evs st'
  end.

(** The events that bring in a socket with the identity [id]. *)
Definition connects (id : nat) (ev : Event) : Prop :=
  match ev with
  | Connection c _ => client_id c = id
  | _ => False
  end.
End Events.

End ServerLoop.

(** ** More of the push transport *)

Module HookTraces.
Import Store WebSocket WebSocketHook.


(** The events the browser produces, as opposed to the calls of the
    component. *)
Definition from_browser (ev : Event) : Prop :=
  match ev with
  | Reconnect | Unmount => False
  | _ => True
  end.

(** What holds of a mounted hook whose [reconnect] is never called, beyond
    [Single]: the socket there is is the one [wsRef] holds, it is
    connecting or open, and [isConnected] says which; the timeout there is
    is the one [reconnectTimeoutRef] holds. *)
Definition Owned (h : Hook) : Prop :=
  Single h ∧
  (∀ ws st, sockets h !! ws = Some st →
            wsRef h = Some ws ∧ (st = CONNECTING ∨ st = OPEN)) ∧
  (∀ t, t ∈ timers h → reconnectTimeoutRef h = Some t) ∧
  (isConnected h = true ↔ ∃ ws, sockets h !! ws = Some OPEN).

(** What holds of a hook after its unmount: no timeout is pending and
    every socket that is left is closing. *)
Definition Unmounted (h : Hook) : Prop :=
  mountedRef h = false ∧ timers h = ∅ ∧
  ∀ ws st, sockets h !! ws = Some st → st = CLOSING.

End HookTraces.

(** ** More of the pull transport *)

Module PollingTraces.
Import Store PollingHook.

(** The snapshot and the error a trace of events leaves in a mounted
    hook: every settled fetch sets the error or clears it, a fetch that
    succeeded replaces the snapshot. *)
Definition view (evs : list Event) (held : option DashboardData * option string)
    : option DashboardData * option string :=
  foldl (λ v ev, match ev with
                 | Settled _ _ (Body true (Some d) _) => (Some d, None)
                 | Settled _ _ res => (v.1, Some (failure_message res))
                 | _ => v
                 end) held evs.

(** The messages a trace of events hands to [onError] in a mounted hook,
    in their order. *)
Definition reports (evs : list Event) : list string :=
  evs ≫= λ ev, match ev with
               | Settled _ _ (Body true (Some _) _) => []
               | Settled _ _ res => [failure_message res]
               | _ => []
               end.

Definition keeps_mounted (ev : Event) : Prop :=
  match ev with
  | Unmount => False
  | _ => True
  end.

Definition no_render (ev : Event) : Prop :=
  match ev with
  | Render _ => False
  | _ => True
  end.

End PollingTraces.

(** ** More of the supervisor *)

Module DashboardTraces.
Import Dashboard.

(** The dashboard after the fallback: in polling mode, with a push
    transport that has reported that its attempts are used up and has
    neither socket nor timeout. *)
Definition FailedOver (d : State) : Prop :=
  mode d = polling ∧
  WebSocketHook.error (ws d) = Some WebSocketHook.max_attempts_reached ∧
  WebSocketHook.sockets (ws d) = ∅ ∧ WebSocketHook.timers (ws d) = ∅.

End DashboardTraces.

(** * Properties *)

#[local] Set Warnings "-clear-no-such-hyp".

(** ** The store *)

Module StoreFacts.
Import Store.

Section Lists.
Context {A : Type} (P : A → Prop) `{!∀ x, Decision (P x)}.

Lemma filter_none (l : list A) : (∀ x, x ∈ l → ¬ P x) → filter P l = [].
Proof.
  induction l as [|x l IH]; intros Hl; [done|].
  rewrite filter_cons_False by (apply Hl; left).
  apply IH. intros y Hy. apply Hl. by right.
Qed.

End Lists.


(** *** Batches and transactions *)

Lemma txn_steps_working (items done : list DashboardMetric) (c w : DB) :
  txn_steps (length done) (InTxn c w (done ++ items)) =
  InTxn c (foldl (λ d m, run_insert m d) w done) items.
Proof.
  revert w. induction done as [|m done IH]; intros w; simpl; [done|]. apply IH.
Qed.

Lemma txn_steps_add (n k : nat) (t : Txn) :
  txn_steps (n + k) t = txn_steps k (txn_steps n t).
Proof. revert t. induction n as [|n IH]; intros t; simpl; [done|]. apply IH. Qed.


Lemma txn_steps_all (items : list DashboardMetric) (db : DB) :
  txn_steps (length items) (txn_begin items db) =
  InTxn db (foldl (λ d m, run_insert m d) db items) [].
Proof.
  pose proof (txn_steps_working [] items db db) as H.
  by rewrite app_nil_r in H.
Qed.

Lemma insertMany_fold (items : list DashboardMetric) (db : DB) :
  insertMany items db = foldl (λ d m, run_insert m d) db items.
Proof.
  unfold insertMany.
  replace (S (length items)) with (length items + 1)%nat by lia.
  by rewrite txn_steps_add, txn_steps_all.
Qed.

Lemma fold_insert_rows (items : list DashboardMetric) (db : DB) :
  ∃ new, rows (foldl (λ d m, run_insert m d) db items) = rows db ++ new ∧
         Forall2 stored new items.
Proof.
  revert db. induction items as [|m items IH]; intros db; simpl.
  - exists []. rewrite app_nil_r. by split.
  - destruct (IH (run_insert m db)) as (new & Hrows & Hnew).
    exists (row_of (last_rowid db + 1) m :: new). split.
    + rewrite Hrows. simpl. by rewrite <- app_assoc.
    + constructor; [by eexists|done].
Qed.

Lemma fold_insert_length (items : list DashboardMetric) (db : DB) :
  length (rows (foldl (λ d m, run_insert m d) db items)) =
  (length (rows db) + length items)%nat.
Proof.
  destruct (fold_insert_rows items db) as (new & -> & Hnew).
  rewrite length_app. by rewrite (Forall2_length _ _ _ Hnew).
Qed.

Lemma batch_total (items : list DashboardMetric) (db : DB) :
  getTotalEvents (insertMetricsBatch items db).1 =
  getTotalEvents db + Z.of_nat (length items).
Proof.
  unfold getTotalEvents, insertMetricsBatch. simpl.
  rewrite insertMany_fold, fold_insert_length. lia.
Qed.





(** *** Retention cleanup *)






End StoreFacts.

(** ** The line series *)

Module LineFacts.
Import Store Generator StoreFacts.

#[local] Instance timestamp_desc_total : Total timestamp_desc.
Proof. intros a b. unfold timestamp_desc. lia. Qed.

#[local] Instance timestamp_desc_trans : Transitive timestamp_desc.
Proof. intros a b c. unfold timestamp_desc. lia. Qed.

Lemma order_by_sorted (l : list Row) :
  StronglySorted timestamp_desc (order_by_timestamp_desc l).
Proof. apply StronglySorted_merge_sort; apply _. Qed.

Lemma order_by_perm (l : list Row) : order_by_timestamp_desc l ≡ₚ l.
Proof. apply merge_sort_Permutation. Qed.


Lemma sql_limit_length {A} (n : Z) (l : list A) :
  0 ≤ n → length (sql_limit n l) = Nat.min (Z.to_nat n) (length l).
Proof. intros Hn. unfold sql_limit. rewrite decide_False by lia. apply length_take. Qed.

Lemma sql_limit_head {A} (n : Z) (x : A) (l : list A) :
  n ≠ 0 → head (sql_limit n (x :: l)) = Some x.
Proof.
  intros Hn. unfold sql_limit. case_decide; [done|].
  destruct (Z.to_nat n) eqn:E; [lia|done].
Qed.



Lemma line_series_length (limit : Z) (db : DB) :
  0 ≤ limit →
  length (getLineChartData limit db) = Nat.min (Z.to_nat limit) (length (line_rows db)).
Proof.
  intros Hl. unfold getLineChartData. cbv zeta. fold (line_rows db).
  rewrite length_reverse, length_fmap, sql_limit_length by done.
  by rewrite order_by_perm.
Qed.

(** The last element of the series is the newest [line] point. *)
Lemma line_series_last (limit : Z) (db : DB) (r : Row) :
  limit ≠ 0 → r ∈ line_rows db →
  (∀ r', r' ∈ line_rows db → row_timestamp r' ≤ row_timestamp r) →
  ∃ v, last (getLineChartData limit db) = Some (row_timestamp r, v).
Proof.
  intros Hl Hr Hmax. unfold getLineChartData. cbv zeta. fold (line_rows db).
  rewrite last_reverse.
  pose proof (order_by_sorted (line_rows db)) as Hs.
  pose proof (order_by_perm (line_rows db)) as Hp.
  destruct (order_by_timestamp_desc (line_rows db)) as [|x sorted] eqn:E.
  { rewrite <- Hp in Hr. by apply elem_of_nil in Hr. }
  pose proof (sql_limit_head limit x sorted Hl) as Hh.
  destruct (sql_limit limit (x :: sorted)) as [|y kept]; [done|].
  simpl in Hh. injection Hh as ->.
  exists (row_value x). simpl. unfold point. do 2 f_equal.
  apply StronglySorted_cons in Hs as [Hx _]. rewrite Forall_forall in Hx.
  assert (row_timestamp x ≤ row_timestamp r) by (apply Hmax; rewrite <- Hp; left).
  rewrite <- Hp in Hr. apply elem_of_cons in Hr as [-> | Hr]; [done|].
  apply Hx in Hr. unfold timestamp_desc in Hr. lia.
Qed.

(** *** What the rows of a batch are *)

Lemma stored_filter_length (ty : MetricType) (new : list Row) (items : list DashboardMetric) :
  Forall2 stored new items →
  length (filter (is_type ty) new) = length (filter (λ m, metricType m = ty) items).
Proof.
  induction 1 as [|r m new items [id ->] _ IH]; [done|].
  rewrite !filter_cons. unfold is_type at 1. simpl.
  destruct (decide (metricType m = ty)); simpl; by rewrite IH.
Qed.

Lemma stored_elem_of_l (new : list Row) (items : list DashboardMetric) (r : Row) :
  Forall2 stored new items → r ∈ new → ∃ m, m ∈ items ∧ stored r m.
Proof.
  induction 1 as [|r' m new items Hs _ IH]; intros Hr.
  - by apply elem_of_nil in Hr.
  - apply elem_of_cons in Hr as [-> | Hr].
    + exists m. split; [left|done].
    + destruct (IH Hr) as (m' & ? & ?). exists m'. split; [by right|done].
Qed.

Lemma stored_elem_of_r (new : list Row) (items : list DashboardMetric) (m : DashboardMetric) :
  Forall2 stored new items → m ∈ items → ∃ r, r ∈ new ∧ stored r m.
Proof.
  induction 1 as [|r m' new items Hs _ IH]; intros Hm.
  - by apply elem_of_nil in Hm.
  - apply elem_of_cons in Hm as [-> | Hm].
    + exists r. split; [left|done].
    + destruct (IH Hm) as (r' & ? & ?). exists r'. split; [by right|done].
Qed.

(** *** Seeding one hour *)

Lemma mapM_total {A B} (f : A → option B) (g : A → B) (l : list A) :
  (∀ x, x ∈ l → f x = Some (g x)) → mapM f l = Some (g <$> l).
Proof.
  intros Hf. apply mapM_Some, Forall2_fmap_r, Forall_Forall2_diag, Forall_forall.
  exact Hf.
Qed.

Lemma seed_line_hour (now : Z) (rnd : entropy) :
  - JS.maxTime + 3600000 ≤ now ≤ JS.maxTime →
  seed_line now (JS.Num 60000) rnd = Some (hour_lines now rnd).
Proof.
  intros Hnow. unfold seed_line, hour_lines. apply mapM_total.
  intros k Hk%elem_of_seq. simpl. rewrite decide_True by lia. done.
Qed.

Lemma seed_categories_now (ty : MetricType) (now base : Z) (k0 : nat) (rnd : entropy) :
  - JS.maxTime ≤ now ≤ JS.maxTime →
  seed_categories ty now base k0 rnd = Some (hour_categories ty now base k0 rnd).
Proof.
  intros Hnow. unfold seed_categories, hour_categories, categories. simpl.
  rewrite decide_True by lia. done.
Qed.

Lemma seed_hour (now : Z) (rnd : entropy) (db : DB) :
  - JS.maxTime + 3600000 ≤ now ≤ JS.maxTime →
  seedHistoricalData now rnd (JS.Num 1) db = Some (insertMetricsBatch (hour now rnd) db).
Proof.
  intros Hnow. unfold seedHistoricalData. cbn [JS.mul JS.div].
  rewrite decide_False by done.
  change (1 * 60 * 60 * 1000 / 60) with 60000.
  rewrite seed_line_hour by done.
  rewrite !seed_categories_now by lia. done.
Qed.

Lemma hour_line_count (now : Z) (rnd : entropy) :
  length (filter (λ m, metricType m = line) (hour now rnd)) = 61%nat.
Proof. done. Qed.





End LineFacts.

(** ** The bar and pie aggregates *)

Module AggregateFacts.
Import Store.

Lemma before_total (a b : string) : ¬ String.le a b → before b a.
Proof.
  intros Hab. destruct (total String.le a b) as [?|Hba]; [done|].
  split; [done|]. intros ?. done.
Qed.

Lemma before_ne (a b : string) : before a b → a ≠ b.
Proof. intros [Hab Hba] ->. done. Qed.

Lemma group_add_keys (c : string) (v : Z) (g : list (string * Z)) (c' : string) :
  c' ∈ (group_add c v g).*1 ↔ c' = c ∨ c' ∈ g.*1.
Proof.
  induction g as [|[k s] g IH]; simpl.
  - rewrite list_elem_of_singleton. rewrite elem_of_nil. tauto.
  - repeat case_decide; subst; simpl; rewrite ?elem_of_cons, ?IH; tauto.
Qed.

Lemma group_add_sorted (c : string) (v : Z) (g : list (string * Z)) :
  StronglySorted before g.*1 → StronglySorted before (group_add c v g).*1.
Proof.
  induction g as [|[k s] g IH]; simpl; intros Hs.
  - repeat constructor.
  - apply StronglySorted_cons in Hs as [Hk Hs].
    destruct (decide (c = k)) as [->|Hne]; [by constructor|].
    destruct (decide (String.le c k)) as [Hle|Hnle]; simpl.
    + assert (before c k) as Hck.
      { split; [done|]. intros Hkc. by apply Hne, (anti_symm String.le). }
      constructor; [by constructor|].
      constructor; [done|].
      eapply Forall_impl; [exact Hk|]. intros x Hx. simpl in Hx. by etrans.
    + constructor; [by apply IH|].
      apply Forall_forall. intros x Hx. apply group_add_keys in Hx as [-> | Hx].
      * by apply before_total.
      * rewrite Forall_forall in Hk. by apply Hk.
Qed.

Lemma group_total_cons (c k : string) (s : Z) (g : list (string * Z)) :
  group_total c ((k, s) :: g) = (if decide (k = c) then s else 0) + group_total c g.
Proof. unfold group_total. rewrite filter_cons. by case_decide; simplify_eq/=; case_decide. Qed.

Lemma group_add_total (c : string) (v : Z) (g : list (string * Z)) (c' : string) :
  group_total c' (group_add c v g) = group_total c' g + (if decide (c' = c) then v else 0).
Proof.
  induction g as [|[k s] g IH]; simpl.
  - rewrite group_total_cons. unfold group_total. simpl.
    repeat case_decide; simplify_eq/=; lia.
  - repeat case_decide; rewrite !group_total_cons, ?IH;
      repeat case_decide; simplify_eq/=; lia.
Qed.

Lemma group_total_absent (c : string) (g : list (string * Z)) :
  c ∉ g.*1 → group_total c g = 0.
Proof.
  induction g as [|[k s] g IH]; [done|].
  rewrite fmap_cons, not_elem_of_cons, group_total_cons. simpl. intros [? ?].
  rewrite decide_False by done. by rewrite IH.
Qed.

(** In groups in strict order an entry holds the whole sum of its
    category. *)
Lemma group_total_entry (c : string) (s : Z) (g : list (string * Z)) :
  StronglySorted before g.*1 → (c, s) ∈ g → group_total c g = s.
Proof.
  induction g as [|[k s'] g IH]; intros Hs Hin.
  - by apply elem_of_nil in Hin.
  - rewrite fmap_cons in Hs. simpl in Hs.
    apply StronglySorted_cons in Hs as [Hk Hs]. rewrite Forall_forall in Hk.
    rewrite group_total_cons.
    apply elem_of_cons in Hin as [Heq | Hin].
    + injection Heq as <- <-. rewrite decide_True by done.
      rewrite group_total_absent; [lia|].
      intros Hc. apply Hk in Hc. by apply before_ne in Hc.
    + assert (before k c) as Hkc.
      { apply Hk. apply list_elem_of_fmap. by exists (c, s). }
      rewrite decide_False by (by apply before_ne).
      rewrite IH by done. lia.
Qed.

Lemma foldr_add_from (l : list Z) (a : Z) : foldr Z.add a l = foldr Z.add 0 l + a.
Proof. induction l as [|x l IH]; simpl; [lia|]. rewrite IH. lia. Qed.

Lemma rows_total_snoc (c : string) (rs : list Row) (r : Row) :
  rows_total c (rs ++ [r]) =
  rows_total c rs + (if decide (row_category r = Some c) then row_value r else 0).
Proof.
  unfold rows_total. rewrite filter_app, fmap_app, foldr_app, filter_cons, filter_nil.
  rewrite foldr_add_from. case_decide; simpl; lia.
Qed.

(** The groups after the rows [rs]: in strict order, one for each category
    of a row, and summing to what the rows of the category sum to. *)
Lemma fold_group_row (rs : list Row) :
  let g := foldl group_row [] rs in
  StronglySorted before g.*1 ∧
  (∀ c, c ∈ g.*1 ↔ ∃ r, r ∈ rs ∧ row_category r = Some c) ∧
  (∀ c, group_total c g = rows_total c rs).
Proof.
  induction rs as [|r rs IH] using rev_ind; simpl.
  - split_and!; [constructor| |done].
    intros c. rewrite elem_of_nil. split; [done|]. intros (r & Hr & _).
    by apply elem_of_nil in Hr.
  - rewrite foldl_app. simpl. destruct IH as (Hs & Hk & Ht).
    assert (∀ c, (∃ r', r' ∈ rs ++ [r] ∧ row_category r' = Some c) ↔
                 row_category r = Some c ∨ ∃ r', r' ∈ rs ∧ row_category r' = Some c)
      as Hsnoc.
    { intros c. split.
      - intros (r' & Hr' & Hc'). apply elem_of_app in Hr' as [Hr' | Hr'].
        + right. by exists r'.
        + apply list_elem_of_singleton in Hr'. subst r'. by left.
      - intros [Hc' | (r' & Hr' & Hc')].
        + exists r. split; [apply elem_of_app; right; left|done].
        + exists r'. split; [apply elem_of_app; by left|done]. }
    unfold group_row at 1 3 5. destruct (row_category r) as [c0|] eqn:Hc.
    + split_and!.
      * by apply group_add_sorted.
      * intros c. rewrite group_add_keys, Hk, Hsnoc. split.
        -- intros [-> | ?]; [by left|by right].
        -- intros [[= ->] | ?]; [by left|by right].
      * intros c. rewrite group_add_total, Ht, rows_total_snoc, Hc.
        repeat case_decide; simplify_eq/=; lia.
    + split_and!; [done| |].
      * intros c. rewrite Hk, Hsnoc. split; [by right|]. by intros [?|?].
      * intros c. rewrite Ht, rows_total_snoc, Hc. rewrite decide_False by done. lia.
Qed.

Lemma category_total_rows (ty : MetricType) (c : string) (db : DB) :
  category_total ty c db = rows_total c (filter (is_type ty) (rows db)).
Proof.
  unfold category_total, rows_total. do 2 f_equal.
  rewrite list_filter_filter. apply list_filter_iff. intros r. unfold is_type. tauto.
Qed.

Lemma sorted_before_NoDup (l : list string) : StronglySorted before l → NoDup l.
Proof.
  induction 1 as [|x l _ IH Hx]; constructor; [|done].
  intros Hin. rewrite Forall_forall in Hx. apply Hx in Hin. by apply before_ne in Hin.
Qed.

Lemma aggregate_spec (ty : MetricType) (db : DB) :
  aggregates_of ty db (aggregate ty db).
Proof.
  unfold aggregates_of, aggregate.
  destruct (fold_group_row (filter (is_type ty) (rows db))) as (Hs & Hk & Ht).
  split_and!.
  - done.
  - by apply sorted_before_NoDup.
  - intros c. rewrite Hk. split.
    + intros (r & Hr%list_elem_of_filter & ?). exists r. unfold is_type in Hr. tauto.
    + intros (r & ? & ? & ?). exists r. split; [|done]. by apply list_elem_of_filter.
  - intros c s Hin. rewrite category_total_rows, <- Ht. symmetry.
    by apply group_total_entry.
Qed.




End AggregateFacts.

(** ** The server *)

Module ServerFacts.
Import Store WebSocket Server.

Lemma delivered_not_open (m : Message) (c : Client) :
  readyState c ≠ OPEN → delivered m c = c.
Proof. intros. unfold delivered. by rewrite decide_False. Qed.

Lemma delivered_open (m : Message) (c : Client) :
  readyState c = OPEN → send_throws c = false → send m c = Some (delivered m c).
Proof. intros Ho Ht. unfold delivered, send. by rewrite Ht, decide_True. Qed.

Lemma forEach_send_cons (m : Message) (c : Client) (cs : list Client) :
  (readyState c = OPEN → send_throws c = false) →
  forEach_send m (c :: cs) = (delivered m c :: (forEach_send m cs).1, (forEach_send m cs).2).
Proof.
  intros Hc. cbn [forEach_send]. case_decide.
  - by rewrite delivered_open by auto.
  - by rewrite delivered_not_open.
Qed.

Lemma forEach_send_ids (m : Message) (cs : list Client) :
  client_id <$> (forEach_send m cs).1 = client_id <$> cs.
Proof.
  induction cs as [|c cs IH]; simpl; [done|].
  case_decide; [unfold send; destruct (send_throws c)|]; simpl; f_equal; auto.
Qed.

Lemma forEach_send_ok (m : Message) (cs : list Client) :
  Forall (λ c, readyState c = OPEN → send_throws c = false) cs →
  forEach_send m cs = (delivered m <$> cs, Returned).
Proof.
  induction 1 as [|c cs Hc _ IH]; [done|].
  by rewrite forEach_send_cons, IH.
Qed.

Lemma forEach_send_throws (m : Message) (before after : list Client) (c : Client) :
  Forall (λ c, readyState c = OPEN → send_throws c = false) before →
  readyState c = OPEN → send_throws c = true →
  forEach_send m (before ++ c :: after) = ((delivered m <$> before) ++ c :: after, Threw).
Proof.
  intros Hb Ho Ht. induction Hb as [|b before Hb _ IH].
  - simpl. rewrite decide_True by done. unfold send. by rewrite Ht.
  - rewrite <- app_comm_cons, forEach_send_cons, IH by done. done.
Qed.

(** C4, as the code has it.  A broadcast hands the update to the
    connections that are open, in the order of the set, and passes over
    the others; it takes no connection out of the set.  When no [send]
    raises it reaches every open connection.  When a [send] raises,
    nothing catches it: the broadcast ends there with the exception, the
    connection whose [send] raised stays in the set, and the connections
    after it have not been reached. *)
Theorem broadcast_reaches_open_connections (now : Z) (st : State) :
  agentDB (broadcastUpdate now st).1 = agentDB st ∧
  client_id <$> clients (broadcastUpdate now st).1 = client_id <$> clients st ∧
  (∀ c, readyState c ≠ OPEN → delivered (update_message now st) c = c) ∧
  (∀ c, readyState c = OPEN →
        sent (delivered (update_message now st) c) = sent c ++ [update_message now st]) ∧
  (Forall (λ c, readyState c = OPEN → send_throws c = false) (clients st) →
     broadcastUpdate now st =
       ({| agentDB := agentDB st;
           clients := delivered (update_message now st) <$> clients st |}, Returned)) ∧
  (∀ before c after,
     clients st = before ++ c :: after →
     Forall (λ c, readyState c = OPEN → send_throws c = false) before →
     readyState c = OPEN → send_throws c = true →
     broadcastUpdate now st =
       ({| agentDB := agentDB st;
           clients := (delivered (update_message now st) <$> before) ++ c :: after |}, Threw)).
Proof.
  split_and!.
  - unfold broadcastUpdate. by case_decide.
  - unfold broadcastUpdate. case_decide; [done|]. simpl. apply forEach_send_ids.
  - intros c. apply delivered_not_open.
  - intros c Ho. unfold delivered. by rewrite decide_True.
  - intros Hok. unfold broadcastUpdate. case_decide as Hn.
    + destruct st as [db [|c cs]]; [done|]. simpl in Hn. lia.
    + by rewrite forEach_send_ok.
  - intros before c after Hcs Hb Ho Ht. unfold broadcastUpdate.
    rewrite decide_False by (rewrite Hcs, length_app; simpl; lia).
    rewrite Hcs. by rewrite forEach_send_throws.
Qed.

(** Two open connections, none of which raises. *)
Lemma broadcast_reaches_open_connections_witness :
  let c1 := {| client_id := 1; readyState := OPEN; sent := []; send_throws := false |} in
  let c2 := {| client_id := 2; readyState := CLOSING; sent := []; send_throws := false |} in
  let st := {| agentDB := empty; clients := [c1; c2] |} in
  Forall (λ c, readyState c = OPEN → send_throws c = false) (clients st) ∧
  broadcastUpdate 0 st =
    ({| agentDB := empty; clients := delivered (update_message 0 st) <$> clients st |},
     Returned).
Proof.
  intros c1 c2 st.
  assert (Forall (λ c, readyState c = OPEN → send_throws c = false) (clients st)) as Hok.
  { repeat constructor. }
  split; [exact Hok|].
  destruct (broadcast_reaches_open_connections 0 st) as (_ & _ & _ & _ & H & _).
  exact (H Hok).
Defined.

(** C4 as the specification has it fails: of two open connections the
    [send] of the first raises.  The exception leaves [broadcastUpdate],
    the first connection is still in the set, and the second one has been
    sent nothing. *)
Lemma broadcast_send_failure_escapes :
  let c1 := {| client_id := 1; readyState := OPEN; sent := []; send_throws := true |} in
  let c2 := {| client_id := 2; readyState := OPEN; sent := []; send_throws := false |} in
  let st := {| agentDB := empty; clients := [c1; c2] |} in
  (broadcastUpdate 0 st).2 = Threw ∧
  c1 ∈ clients (broadcastUpdate 0 st).1 ∧
  clients (broadcastUpdate 0 st).1 = [c1; c2] ∧
  sent <$> clients (broadcastUpdate 0 st).1 = [[]; []].
Proof. intros c1 c2 st. split_and!; [done|left|done|done]. Qed.

(** *** The administrative endpoints *)






End ServerFacts.

(** ** The push transport *)

Module HookFacts.
Import WebSocket WebSocketHook.

Ltac count_failed :=
  unfold times_failed in *; simpl;
  rewrite ?filter_app, ?length_app; simpl;
  rewrite ?filter_cons, ?filter_nil; simpl;
  repeat case_decide; simplify_eq/=; try lia.

Lemma mount_connecting (o : Options) : url_ok o = true → Connecting 0 (mount o).
Proof.
  intros Hu. unfold mount, connect. simpl. rewrite Hu. simpl.
  repeat split. exists 0%nat. split; [done|]. simpl. apply insert_empty.
Qed.

(** *** Single events *)

Lemma opened_resets (o : Options) (ws : nat) (h h' : Hook) :
  step o (Opened ws) h = Some h' →
  reconnectAttemptRef h' = 0%nat ∧ reconnectAttempt h' = 0%nat ∧ isConnected h' = true.
Proof. simpl. case_decide; [|done]. intros [= <-]. done. Qed.

Lemma closed_increments (o : Options) (ws : nat) (h h' : Hook) :
  step o (Closed ws) h = Some h' →
  intentionalCloseRef h = false → mountedRef h = true →
  (reconnectAttemptRef h < maxReconnectAttempts o)%nat →
  reconnectAttemptRef h' = S (reconnectAttemptRef h) ∧
  reconnectAttempt h' = S (reconnectAttemptRef h) ∧
  reconnectTimeoutRef h' = Some (next h) ∧
  timers h' = {[next h]} ∪ timers h ∧
  times_failed h' = times_failed h.
Proof.
  simpl. case_decide; [|done]. intros [= <-] Hi Hm Hlt.
  unfold onclose. simpl. rewrite Hi, Hm. simpl.
  apply Nat.ltb_lt in Hlt. rewrite Hlt. simpl.
  split_and!; [lia|lia|done|done|count_failed].
Qed.

Lemma closed_intentional (o : Options) (ws : nat) (h h' : Hook) :
  step o (Closed ws) h = Some h' →
  intentionalCloseRef h = true →
  reconnectAttemptRef h' = reconnectAttemptRef h ∧ timers h' = timers h ∧
  intentionalCloseRef h' = false ∧ wsRef h' = None.
Proof.
  simpl. case_decide; [|done]. intros [= <-] Hi.
  unfold onclose. simpl. rewrite Hi. done.
Qed.

(** *** Connection attempts that fail one after the other *)

Lemma fail_below (o : Options) (k : nat) (h : Hook) :
  Connecting k h → (k < maxReconnectAttempts o)%nat →
  ∃ h', fail_connection o h = Some h' ∧ Waiting (S k) h'.
Proof.
  intros (Hm & Hi & Hk & Hf & Ht & ws & Hw & Hs) Hlt.
  unfold fail_connection. rewrite Hw. simpl.
  rewrite Hs, lookup_singleton_eq. rewrite decide_True by eauto.
  cbn [mbind option_bind step]. unfold onerror, setError, emit. simpl.
  rewrite Hs, lookup_singleton_eq. rewrite decide_True by eauto.
  eexists. split; [done|].
  unfold onclose. simpl. rewrite Hi, Hm, Hk. simpl.
  apply Nat.ltb_lt in Hlt. rewrite Hlt. simpl.
  unfold Waiting. simpl. rewrite ?Hs, ?Ht. split_and!.
  - done.
  - done.
  - lia.
  - count_failed.
  - done.
  - apply delete_singleton_eq.
  - eexists. split; [done|]. set_solver.
Qed.

Lemma fail_exhausted (o : Options) (k : nat) (h : Hook) :
  Connecting k h → (maxReconnectAttempts o ≤ k)%nat →
  ∃ h', fail_connection o h = Some h' ∧ Exhausted h' ∧ reconnectAttemptRef h' = k.
Proof.
  intros (Hm & Hi & Hk & Hf & Ht & ws & Hw & Hs) Hge.
  unfold fail_connection. rewrite Hw. simpl.
  rewrite Hs, lookup_singleton_eq. rewrite decide_True by eauto.
  cbn [mbind option_bind step]. unfold onerror, setError, emit. simpl.
  rewrite Hs, lookup_singleton_eq. rewrite decide_True by eauto.
  eexists. split; [done|].
  unfold onclose. simpl. rewrite Hi, Hm, Hk. simpl.
  assert ((k <? maxReconnectAttempts o)%nat = false) as -> by (apply Nat.ltb_ge; lia).
  assert ((maxReconnectAttempts o <=? k)%nat = true) as -> by (apply Nat.leb_le; lia).
  unfold Exhausted. simpl. rewrite ?Hs, ?Ht. split_and!.
  - done.
  - count_failed.
  - done.
  - apply delete_singleton_eq.
  - done.
  - done.
Qed.

Lemma retry_connects (o : Options) (k : nat) (h : Hook) :
  url_ok o = true → Waiting k h →
  ∃ h', retry o h = Some h' ∧ Connecting k h'.
Proof.
  intros Hu (Hm & Hi & Hk & Hf & Hw & Hs & t & Hr & Ht).
  unfold retry. rewrite Hr. simpl. rewrite decide_True by (rewrite Ht; set_solver).
  eexists. split; [done|].
  unfold connect. simpl. rewrite Hm, Hu. simpl.
  unfold Connecting. simpl. rewrite ?Hs, ?Ht. split_and!; try done.
  - set_solver.
  - eexists. split; [done|]. apply insert_empty.
Qed.

Lemma failures_snoc (o : Options) (n : nat) (h : Hook) :
  failures o (S n) h = failures o n h ≫= failure o.
Proof.
  revert h. induction n as [|n IH]; intros h.
  - simpl. by destruct (failure o h).
  - change (failures o (S (S n)) h) with (failure o h ≫= failures o (S n)).
    change (failures o (S n) h) with (failure o h ≫= failures o n).
    destruct (failure o h) as [h1|]; simpl; [|done]. apply IH.
Qed.

(** After [k] failures, [k] not above the bound, the next attempt is under
    way ([k = 0]) or scheduled. *)
Lemma failures_below (o : Options) (k : nat) :
  url_ok o = true → (k ≤ maxReconnectAttempts o)%nat →
  ∃ h, failures o k (mount o) = Some h ∧
       match k with O => Connecting 0 h | S _ => Waiting k h end.
Proof.
  intros Hu. induction k as [|k IH]; intros Hk.
  - exists (mount o). split; [done|]. by apply mount_connecting.
  - destruct IH as (h & Hrun & Hh); [lia|].
    rewrite failures_snoc, Hrun. simpl. destruct k as [|k].
    + pose proof Hh as (_ & _ & _ & _ & _ & ws & Hw & _).
      unfold failure. rewrite Hw. apply fail_below; [done|lia].
    + pose proof Hh as (_ & _ & _ & _ & Hw & _).
      unfold failure. rewrite Hw.
      destruct (retry_connects o (S k) h Hu Hh) as (h1 & -> & Hh1). simpl.
      apply fail_below; [done|lia].
Qed.

(** One failure more uses the attempts up. *)
Lemma failures_exhausted (o : Options) :
  url_ok o = true →
  ∃ h, failures o (S (maxReconnectAttempts o)) (mount o) = Some h ∧
       Exhausted h ∧ reconnectAttemptRef h = maxReconnectAttempts o.
Proof.
  intros Hu.
  destruct (failures_below o (maxReconnectAttempts o) Hu) as (h & Hrun & Hh); [lia|].
  rewrite failures_snoc, Hrun. simpl.
  destruct (maxReconnectAttempts o) as [|k] eqn:Hmax.
  - pose proof Hh as (_ & _ & _ & _ & _ & ws & Hw & _).
    unfold failure. rewrite Hw. apply fail_exhausted; [done|lia].
  - pose proof Hh as (_ & _ & _ & _ & Hw & _).
    unfold failure. rewrite Hw.
    destruct (retry_connects o (S k) h Hu Hh) as (h1 & -> & Hh1). simpl.
    apply fail_exhausted; [done|lia].
Qed.

(** Then nothing is left that could fail or report again. *)
Lemma exhausted_stuck (o : Options) (h : Hook) (ev : Event) :
  Exhausted h → ev ≠ Reconnect → ev ≠ Unmount →
  step o ev h = None ∧ failure o h = None.
Proof.
  intros (He & Hf & Hw & Hs & Ht) Hr Hu. split.
  - destruct ev; simpl; try done.
    all: rewrite ?Hs, ?Ht, ?lookup_empty; case_decide as Hd; [|done].
    + done.
    + done.
    + by destruct Hd.
    + by destruct Hd.
    + set_solver.
  - unfold failure, retry. rewrite Hw. destruct (reconnectTimeoutRef h); [|done].
    simpl. rewrite Ht. rewrite decide_False by set_solver. done.
Qed.

Lemma phase_waiting (k : nat) (h : Hook) : Waiting k h → phase h = RECONNECT_WAIT.
Proof.
  intros (_ & _ & _ & _ & Hw & _ & t & _ & Ht). unfold phase. rewrite Hw, Ht.
  rewrite decide_False by set_solver. done.
Qed.

Lemma phase_connecting (k : nat) (h : Hook) : Connecting k h → phase h = CONNECTING_.
Proof.
  intros (_ & _ & _ & _ & _ & ws & Hw & Hs). unfold phase.
  by rewrite Hw, Hs, lookup_singleton_eq.
Qed.

Lemma phase_exhausted (h : Hook) : Exhausted h → phase h = FAILED.
Proof.
  intros (He & _ & Hw & _ & Ht). unfold phase. rewrite Hw, Ht, He.
  by rewrite !decide_True.
Qed.

(** C1, as the code has it.  In a session with a usable URL the attempt
    counter is 0 after every open, and a close that is not intentional
    finds it below the bound, adds exactly 1 to it and schedules one
    retry.  Starting from the mount, as long as no more connection
    attempts have failed in a row than the bound says, the counter is
    their number, the session has not failed and has reported nothing.
    The failure after that, the one of the last retry (the bound plus
    one in all), ends the session: it is FAILED, has set the error 'Max
    reconnection attempts reached' once, has neither socket nor timeout,
    and no event but a manual reconnect or the unmount can happen to it,
    so that nothing is retried or reported again. *)
Theorem reconnection_budget (o : Options) :
  url_ok o = true →
  (∀ ws h h', step o (Opened ws) h = Some h' →
     reconnectAttemptRef h' = 0%nat ∧ reconnectAttempt h' = 0%nat) ∧
  (∀ ws h h', step o (Closed ws) h = Some h' →
     intentionalCloseRef h = false → mountedRef h = true →
     (reconnectAttemptRef h < maxReconnectAttempts o)%nat →
     reconnectAttemptRef h' = S (reconnectAttemptRef h) ∧
     timers h' = {[next h]} ∪ timers h ∧ times_failed h' = times_failed h) ∧
  (∀ k, (k ≤ maxReconnectAttempts o)%nat →
     ∃ h, failures o k (mount o) = Some h ∧
          reconnectAttemptRef h = k ∧ phase h ≠ FAILED ∧ times_failed h = 0%nat ∧
          (0 < k → phase h = RECONNECT_WAIT)%nat) ∧
  (∃ h, failures o (S (maxReconnectAttempts o)) (mount o) = Some h ∧
        phase h = FAILED ∧ error h = Some max_attempts_reached ∧
        times_failed h = 1%nat ∧ sockets h = ∅ ∧ timers h = ∅ ∧
        failure o h = None ∧
        ∀ ev, ev ≠ Reconnect → ev ≠ Unmount → step o ev h = None).
Proof.
  intros Hu. split_and!.
  - intros ws h h' Hstep. by destruct (opened_resets o ws h h' Hstep) as (? & ? & _).
  - intros ws h h' Hstep Hi Hm Hlt.
    by destruct (closed_increments o ws h h' Hstep Hi Hm Hlt) as (? & _ & _ & ? & ?).
  - intros k Hk. destruct (failures_below o k Hu Hk) as (h & Hrun & Hh).
    exists h. split; [done|]. destruct k as [|k].
    + pose proof (phase_connecting _ _ Hh) as Hp.
      destruct Hh as (_ & _ & ? & ? & _). rewrite Hp. split_and!; try done. lia.
    + pose proof (phase_waiting _ _ Hh) as Hp.
      destruct Hh as (_ & _ & ? & ? & _). rewrite Hp. split_and!; done.
  - destruct (failures_exhausted o Hu) as (h & Hrun & Hh & _).
    exists h. pose proof (phase_exhausted _ Hh) as Hp.
    pose proof Hh as (He & Hf & _ & Hs & Ht).
    split_and!; try done.
    + apply (exhausted_stuck o h (Opened 0) Hh); done.
    + intros ev Hr Hun. by apply exhausted_stuck.
Qed.

(** The hypothesis of the theorem holds of the default options. *)
Lemma reconnection_budget_witness :
  url_ok defaults = true ∧
  ∃ h, failures defaults 11 (mount defaults) = Some h ∧ phase h = FAILED ∧
       times_failed h = 1%nat.
Proof.
  split; [reflexivity|].
  destruct (reconnection_budget defaults eq_refl) as (_ & _ & _ & h & Hrun & Hp & _ & Hf & _).
  exists h. split_and!; assumption.
Defined.

(** C1 as the specification has it fails: with the default bound of 10,
    ten failed connection attempts in a row leave the session waiting for
    its tenth retry, not FAILED, and nothing has been reported. *)
Lemma ten_failures_leave_a_retry :
  ∃ h, failures defaults 10 (mount defaults) = Some h ∧
       phase h = RECONNECT_WAIT ∧ phase h ≠ FAILED ∧
       reconnectAttemptRef h = 10%nat ∧
       error h = Some connection_error ∧ times_failed h = 0%nat ∧
       reconnectTimeoutRef h = Some 19%nat ∧ timers h = {[19%nat]}.
Proof. eexists. split; [vm_compute; reflexivity|]. by vm_compute. Qed.

(** *** Manual reconnect *)

(** What [reconnect] does do: the counter is 0 again and a new socket is
    connecting. *)
Lemma reconnect_restarts (o : Options) (h : Hook) :
  url_ok o = true → mountedRef h = true →
  let h' := reconnect o h in
  reconnectAttemptRef h' = 0%nat ∧ reconnectAttempt h' = 0%nat ∧
  wsRef h' = Some (next h) ∧ sockets h' !! next h = Some CONNECTING ∧
  intentionalCloseRef h' = intentionalCloseRef h.
Proof.
  intros Hu Hm. unfold reconnect, connect, close.
  destruct (wsRef h) as [ws|]; [destruct (sockets h !! ws) as [[]|]|]; simpl;
    rewrite Hm, Hu; simpl; split_and!; try done; apply lookup_insert_eq.
Qed.

(** C3 fails on the code.  A session whose socket is open is asked to
    reconnect: the old socket is closing, and the flag that marks an
    intentional close is not set.  When the [close] event of the old
    socket arrives, its handler clears [wsRef], which by then holds the
    new socket, counts an attempt and schedules a retry; when that fires,
    a third socket is made, and the session has two sockets that are
    connecting, each with the hook's handlers. *)
Theorem reconnect_close_not_intentional :
  let h1 := run defaults [Opened 0; Reconnect] (mount defaults) in
  let h2 := run defaults [Opened 0; Reconnect; Closed 0] (mount defaults) in
  let h3 := run defaults [Opened 0; Reconnect; Closed 0; TimerFired 2] (mount defaults) in
  (intentionalCloseRef <$> h1 = Some false ∧
   map_to_list ∘ sockets <$> h1 = Some [(1%nat, CONNECTING); (0%nat, CLOSING)] ∧
   wsRef <$> h1 = Some (Some 1%nat) ∧ reconnectAttemptRef <$> h1 = Some 0%nat) ∧
  (wsRef <$> h2 = Some None ∧ reconnectAttemptRef <$> h2 = Some 1%nat ∧
   elements ∘ timers <$> h2 = Some [2%nat] ∧
   map_to_list ∘ sockets <$> h2 = Some [(1%nat, CONNECTING)]) ∧
  (map_to_list ∘ sockets <$> h3 = Some [(3%nat, CONNECTING); (1%nat, CONNECTING)] ∧
   wsRef <$> h3 = Some (Some 3%nat)).
Proof. by vm_compute. Qed.

End HookFacts.

(** ** The pull transport *)

Module PollingFacts.
Import PollingHook.

Lemma fetchData_guarded (p : Poll) : Guarded p → Guarded (fetchData p).
Proof.
  intros Hg. unfold fetchData.
  destruct (negb (mountedRef p) || fetchingRef p || negb (enabled p)) eqn:Hguard; [done|].
  destruct Hg as [Hone Hflag].
  apply orb_false_iff in Hguard as [[Hm%negb_false_iff Hf]%orb_false_iff _].
  assert (inflight p = ∅) as Hempty.
  { destruct (decide (inflight p = ∅)) as [|Hne]; [done|].
    destruct (Hflag Hne); congruence. }
  split; simpl.
  - right. exists (next p). rewrite Hempty. set_solver.
  - intros _. by left.
Qed.

Lemma fetchData_other (p : Poll) :
  intervalRef (fetchData p) = intervalRef p ∧ intervals (fetchData p) = intervals p ∧
  has_cleanup (fetchData p) = has_cleanup p ∧ enabled (fetchData p) = enabled p ∧
  mountedRef (fetchData p) = mountedRef p ∧ data (fetchData p) = data p ∧
  error (fetchData p) = error p.
Proof.
  unfold fetchData.
  destruct (mountedRef p) eqn:?, (fetchingRef p) eqn:?, (enabled p) eqn:?;
    simpl; split_and!; congruence.
Qed.



Lemma resume_fields (now : Z) (res : FetchResult) (p : Poll) :
  inflight (resume now res p) = inflight p ∧ intervals (resume now res p) = intervals p ∧
  intervalRef (resume now res p) = intervalRef p ∧ has_cleanup (resume now res p) = has_cleanup p ∧
  mountedRef (resume now res p) = mountedRef p ∧ enabled (resume now res p) = enabled p ∧
  next (resume now res p) = next p ∧
  (mountedRef p = true → fetchingRef (resume now res p) = false).
Proof.
  unfold resume, finally, catch.
  destruct res as [msg|st|[] [d|] err]; destruct (mountedRef p) eqn:Hm; simpl;
    rewrite ?Hm; simpl; done.
Qed.


Lemma settled_guarded (r : nat) (now : Z) (res : FetchResult) (p : Poll) :
  Guarded p → r ∈ inflight p →
  inflight (resume now res (set_inflight (inflight p ∖ {[r]}) p)) = ∅.
Proof.
  intros [[He | [r' Hr']] _] Hr.
  - rewrite He in Hr. set_solver.
  - destruct (resume_fields now res (set_inflight (inflight p ∖ {[r]}) p)) as (-> & _).
    simpl. rewrite Hr' in *. set_solver.
Qed.

Lemma stop_interval_timed (p : Poll) :
  Timed p → intervalRef (stop_interval p) = None ∧ intervals (stop_interval p) = ∅.
Proof.
  unfold stop_interval. intros [(Hr & Hi & _) | (t & Hr & Hi & _)]; rewrite Hr; simpl.
  - done.
  - split; [done|]. rewrite Hi. set_solver.
Qed.

Lemma stop_interval_other (p : Poll) :
  inflight (stop_interval p) = inflight p ∧ fetchingRef (stop_interval p) = fetchingRef p ∧
  mountedRef (stop_interval p) = mountedRef p.
Proof. unfold stop_interval. by destruct (intervalRef p). Qed.

Lemma effect_cleanup_timed (p : Poll) :
  Timed p →
  intervalRef (effect_cleanup p) = None ∧ intervals (effect_cleanup p) = ∅ ∧
  has_cleanup (effect_cleanup p) = false.
Proof.
  intros Ht. unfold effect_cleanup. destruct (has_cleanup p) eqn:Hc; simpl.
  - by destruct (stop_interval_timed p Ht).
  - destruct Ht as [(? & ? & _) | (t & _ & _ & ?)]; [done|congruence].
Qed.

Lemma effect_cleanup_other (p : Poll) :
  inflight (effect_cleanup p) = inflight p ∧ fetchingRef (effect_cleanup p) = fetchingRef p ∧
  mountedRef (effect_cleanup p) = mountedRef p.
Proof.
  unfold effect_cleanup. destruct (has_cleanup p); [simpl; apply stop_interval_other|done].
Qed.

Lemma guarded_ext (p q : Poll) :
  inflight q = inflight p → fetchingRef q = fetchingRef p → mountedRef q = mountedRef p →
  Guarded p → Guarded q.
Proof. unfold Guarded. by intros -> -> ->. Qed.

Lemma effects_timed (p : Poll) :
  intervalRef p = None → intervals p = ∅ →
  Timed (effects p) ∧ (enabled p = true → intervals (effects p) = {[next (fetchData p)]}) ∧
  (enabled p = false → intervals (effects p) = ∅) ∧ enabled (effects p) = enabled p.
Proof.
  intros Hr Hi. unfold effects. destruct (enabled p) eqn:He.
  - destruct (fetchData_other p) as (Hr' & Hi' & _ & He' & _).
    rewrite He', He. simpl. rewrite Hi', Hi, He', He.
    split_and!.
    + right. eexists. split_and!; [done|set_solver|done].
    + intros _. set_solver.
    + done.
    + done.
  - rewrite He. simpl. unfold stop_interval. rewrite Hr. simpl. rewrite He.
    split_and!; [by left|done|done|done].
Qed.

Lemma effects_guarded (p : Poll) : Guarded p → Guarded (effects p).
Proof.
  intros Hg. unfold effects. destruct (enabled p) eqn:He.
  - apply fetchData_guarded in Hg.
    destruct (fetchData_other p) as (_ & _ & _ & He' & _). rewrite He', He. simpl.
    revert Hg. by apply guarded_ext.
  - rewrite He. simpl. revert Hg. apply guarded_ext; simpl; apply stop_interval_other.
Qed.

Lemma render_invariant (b : bool) (p : Poll) :
  Guarded p → Timed p →
  Guarded (render b p) ∧ Timed (render b p) ∧ enabled (render b p) = b ∧
  (b = false → intervals (render b p) = ∅) ∧
  (b = true → intervals (render b p) ≠ ∅).
Proof.
  intros Hg Ht. unfold render.
  destruct (effect_cleanup_timed p Ht) as (Hr & Hi & _).
  destruct (effects_timed (set_enabled b (effect_cleanup p))) as (Ht' & Hon & Hoff & He); [done..|].
  split_and!.
  - apply effects_guarded. revert Hg. apply guarded_ext; simpl; apply effect_cleanup_other.
  - done.
  - done.
  - intros ->. by apply Hoff.
  - intros ->. rewrite Hon by done. set_solver.
Qed.

Lemma effects_mounted (p : Poll) : mountedRef (effects p) = mountedRef p.
Proof.
  unfold effects. destruct (enabled p) eqn:He.
  - destruct (fetchData_other p) as (_ & _ & _ & He' & Hm & _).
    rewrite He', He. simpl. exact Hm.
  - rewrite He. simpl. apply stop_interval_other.
Qed.

Lemma render_mounted (b : bool) (p : Poll) : mountedRef (render b p) = mountedRef p.
Proof. unfold render. rewrite effects_mounted. simpl. apply effect_cleanup_other. Qed.

Lemma mount_invariant (b : bool) :
  Guarded (mount b) ∧ Timed (mount b) ∧ mountedRef (mount b) = true.
Proof.
  unfold mount.
  destruct (effects_timed (set_enabled b initial)) as (Ht & _); [done..|].
  split_and!; [|done|].
  - apply effects_guarded. split; [by left|done].
  - by rewrite effects_mounted.
Qed.

Lemma step_guarded (ev : Event) (p p' : Poll) :
  Guarded p → Timed p → step ev p = Some p' → Guarded p' ∧ Timed p'.
Proof.
  intros Hg Ht. destruct ev as [t|r now res| |b|]; simpl.
  - case_decide; [|done]. intros [= <-]. split; [by apply fetchData_guarded|].
    destruct (fetchData_other p) as (Hr & Hi & Hc & _).
    unfold Timed. by rewrite Hr, Hi, Hc.
  - case_decide as Hr; [|done]. intros [= <-].
    pose proof (settled_guarded r now res p Hg Hr) as Hempty.
    destruct (resume_fields now res (set_inflight (inflight p ∖ {[r]}) p))
      as (_ & Hi & Hir & Hc & _).
    split.
    + split; [by left|]. by rewrite Hempty.
    + unfold Timed. by rewrite Hi, Hir, Hc.
  - intros [= <-]. unfold refresh. split.
    + by apply fetchData_guarded.
    + destruct (fetchData_other (set_loading true p)) as (Hr & Hi & Hc & _).
      unfold Timed. by rewrite Hr, Hi, Hc.
  - intros [= <-]. by destruct (render_invariant b p Hg Ht) as (? & ? & _).
  - intros [= <-]. unfold unmount.
    destruct (effect_cleanup_timed p Ht) as (Hr & Hi & Hc).
    destruct (effect_cleanup_other p) as (Hin & Hf & Hm).
    split.
    + destruct Hg as [Hone _]. split; simpl; [by rewrite Hin|]. by right.
    + by left.
Qed.

Lemma run_guarded (evs : list Event) (p p' : Poll) :
  Guarded p → Timed p → run evs p = Some p' → Guarded p' ∧ Timed p'.
Proof.
  revert p. induction evs as [|ev evs IH]; intros p Hg Ht; simpl.
  - by intros [= <-].
  - destruct (step ev p) as [p1|] eqn:Hstep; simpl; [|done].
    destruct (step_guarded ev p p1 Hg Ht Hstep). by apply IH.
Qed.




End PollingFacts.

(** ** The supervisor *)

Module DashboardFacts.
Import Dashboard.

(** *** The push transport without manual reconnects *)

Section Single.
Import WebSocket WebSocketHook.

Lemma mount_single (o : Options) : Single (WebSocketHook.mount o).
Proof.
  unfold WebSocketHook.mount, connect. simpl. destruct (url_ok o); simpl.
  - split_and!; [done|done|by left|]. left. exists 0%nat, CONNECTING.
    split; [apply insert_empty|done].
  - split_and!; [done|done|by right; right; left|]. right. split; [done|by left].
Qed.

Lemma connect_single (o : Options) (h : Hook) :
  mountedRef h = true → intentionalCloseRef h = false →
  (error h = None ∨ error h = Some connection_error ∨ error h = Some connection_failed) →
  sockets h = ∅ → timers h = ∅ → Single (connect o h).
Proof.
  intros Hm Hi He Hs Ht. unfold connect. rewrite Hm. simpl.
  destruct (url_ok o); simpl.
  - split_and!; [done|done|naive_solver|]. left. exists (next h), CONNECTING.
    rewrite Hs. split; [apply insert_empty|done].
  - split_and!; [done|done|by right; right; left|]. right. split; [done|by left].
Qed.

Lemma step_single (o : Options) (ev : Event) (h h' : Hook) :
  Single h → ev ≠ Reconnect → ev ≠ Unmount → step o ev h = Some h' → Single h'.
Proof.
  intros (Hm & Hi & He & Hone) Hr Hu.
  assert (sockets h ≠ ∅ ∨ timers h ≠ ∅ →
          error h = None ∨ error h = Some connection_error ∨
          error h = Some connection_failed) as Hlive.
  { intros Hne. destruct He as [?|[?|[?|(_ & Hs & Ht)]]]; [tauto..|].
    destruct Hne; congruence. }
  destruct ev as [ws|ws payload|ws|ws|t| |]; simpl; try done.
  - (* Opened *)
    case_decide as Hws; [|done]. intros [= <-].
    split_and!; [done|done|by left|]. simpl.
    destruct Hone as [(ws' & st & Hs & Ht) | [Hs _]].
    + left. exists ws', OPEN. split; [|done].
      rewrite Hs in Hws. apply lookup_singleton_Some in Hws as [-> _].
      rewrite Hs. apply insert_singleton_eq.
    + rewrite Hs, lookup_empty in Hws. done.
  - (* Message *)
    case_decide; [|done]. intros [= <-]. unfold onmessage.
    destruct payload; by split_and!.
  - (* Errored *)
    case_decide; [|done]. intros [= <-].
    split_and!; [done|done|by right; left|done].
  - (* Closed *)
    case_decide as Hws; [|done]. intros [= <-].
    destruct Hone as [(ws' & st & Hs & Ht) | [Hs _]].
    2: { rewrite Hs, lookup_empty in Hws. by destruct Hws. }
    assert (ws = ws') as ->.
    { rewrite Hs in Hws. destruct Hws as [x Hx].
      by apply lookup_singleton_Some in Hx as [-> _]. }
    assert (delete ws' (sockets h) = ∅) as Hdel by (rewrite Hs; apply delete_singleton_eq).
    assert (error h = None ∨ error h = Some connection_error ∨
            error h = Some connection_failed) as He'.
    { apply Hlive. left. rewrite Hs. apply insert_non_empty. }
    unfold onclose. simpl. rewrite Hi, Hm. simpl.
    destruct (reconnectAttemptRef h <? maxReconnectAttempts o)%nat; simpl.
    + split_and!; [done|done|naive_solver|]. right. split; [done|].
      right. exists (next h). rewrite Ht. set_solver.
    + destruct (maxReconnectAttempts o <=? reconnectAttemptRef h)%nat; simpl.
      * split_and!; [done|done|by right; right; right|]. right. split; [done|by left].
      * split_and!; [done|done|naive_solver|]. right. split; [done|by left].
  - (* TimerFired *)
    case_decide as Ht'; [|done]. intros [= <-].
    destruct Hone as [(ws' & st & Hs & Ht) | [Hs [Ht | [t' Ht]]]].
    1, 2: rewrite Ht in Ht'; set_solver.
    apply connect_single; simpl; try done.
    + apply Hlive. right. rewrite Ht. set_solver.
    + rewrite Ht in *. set_solver.
Qed.

Lemma single_marker (h : Hook) (e : string) :
  Single h → error h = Some e → includes "Max reconnection" e = true →
  sockets h = ∅ ∧ timers h = ∅.
Proof.
  intros (_ & _ & He & _) Herr Hinc.
  destruct He as [He|[He|[He|(_ & Hs & Ht)]]]; [| | |done];
    rewrite He in Herr; simplify_eq; vm_compute in Hinc; done.
Qed.
End Single.

(** *** The dashboard *)

Lemma render_once_supervised (d : State) :
  WebSocketHook.Single (ws d) →
  PollingHook.Guarded (poll d) → PollingHook.Timed (poll d) →
  PollingHook.mountedRef (poll d) = true →
  Supervised (render_once d) ∧ mode (render_once d) = mode d ∧ ws (render_once d) = ws d.
Proof.
  intros Hs Hg Ht Hm. unfold render_once.
  destruct (PollingFacts.render_invariant (bool_decide (mode d = polling)) (poll d) Hg Ht)
    as (Hg' & Ht' & _ & Hoff & Hon).
  split_and!; try done. split_and!; simpl; try done.
  - by rewrite PollingFacts.render_mounted.
  - intros Hw. apply Hoff. apply bool_decide_eq_false. congruence.
  - intros Hp. apply Hon. by apply bool_decide_eq_true.
Qed.

Lemma render_supervised (d : State) :
  WebSocketHook.Single (ws d) →
  PollingHook.Guarded (poll d) → PollingHook.Timed (poll d) →
  PollingHook.mountedRef (poll d) = true →
  Supervised (render d) ∧ ws (render d) = ws d ∧
  mode (render d) = (if wants_fallback d then polling else mode d).
Proof.
  intros Hs Hg Ht Hm. unfold render.
  destruct (render_once_supervised d Hs Hg Ht Hm) as (Hsup & Hmode & Hws).
  assert (wants_fallback (render_once d) = wants_fallback d) as ->.
  { unfold wants_fallback. by rewrite Hmode, Hws. }
  destruct (wants_fallback d); [|done].
  destruct Hsup as (Hs1 & Hg1 & Ht1 & Hm1 & _).
  destruct (render_once_supervised
              {| mode := polling; ws := ws (render_once d); poll := poll (render_once d) |}
              Hs1 Hg1 Ht1 Hm1) as (Hsup2 & Hmode2 & Hws2).
  split_and!; [done|by rewrite Hws2|done].
Qed.

Lemma mount_supervised (o : WebSocketHook.Options) (m : ConnectionMode) :
  Supervised (mount o m).
Proof.
  unfold mount.
  destruct (PollingFacts.mount_invariant (bool_decide (m = polling))) as (Hg & Ht & Hm).
  pose proof (mount_single o) as Hs.
  set (d := {| mode := m; ws := WebSocketHook.mount o;
               poll := PollingHook.mount (bool_decide (m = polling)) |}).
  destruct (wants_fallback d) eqn:Hw.
  - by destruct (render_once_supervised {| mode := polling; ws := ws d; poll := poll d |}).
  - split_and!; try done; simpl.
    + intros ->. done.
    + intros ->. vm_compute. set_solver.
Qed.

Lemma handleModeChange_supervised (newMode : option ConnectionMode) (d : State) :
  Supervised d → Supervised (handleModeChange newMode d) ∧ ws (handleModeChange newMode d) = ws d.
Proof.
  intros Hsup. unfold handleModeChange. destruct newMode as [m|]; [|done].
  case_decide; [done|]. destruct Hsup as (Hs & Hg & Ht & Hm & _).
  by destruct (render_supervised {| mode := m; ws := ws d; poll := poll d |}) as (? & ? & _).
Qed.

Lemma step_supervised (o : WebSocketHook.Options) (ev : Event) (d d' : State) :
  Supervised d → step o ev d = Some d' → Supervised d'.
Proof.
  intros Hsup. pose proof Hsup as (Hs & Hg & Ht & Hm & Hoff & Hon).
  destruct ev as [ev|ev| |newMode]; simpl.
  - destruct ev; try done.
    all: destruct (WebSocketHook.step o _ (ws d)) as [h|] eqn:Hstep; [|done].
    all: intros [= <-]; split_and!; try done.
    all: eapply step_single; [exact Hs| | |exact Hstep]; done.
  - destruct ev; try done.
    all: destruct (PollingHook.step _ (poll d)) as [p|] eqn:Hstep; [|done].
    all: intros [= <-].
    all: destruct (PollingFacts.step_guarded _ (poll d) p Hg Ht Hstep) as [Hg' Ht'].
    all: simpl in Hstep; case_decide; [|done]; injection Hstep as <-.
    + destruct (PollingFacts.fetchData_other (poll d)) as (_ & Hi & _ & _ & Hm' & _).
      split_and!; simpl; try done; rewrite ?Hi, ?Hm'; done.
    + destruct (PollingFacts.resume_fields now res
                  (PollingHook.set_inflight (PollingHook.inflight (poll d) ∖ {[r]}) (poll d)))
        as (_ & Hi & _ & _ & Hm' & _).
      split_and!; simpl; try done; rewrite ?Hi, ?Hm'; done.
  - intros [= <-]. by destruct (render_supervised d) as (? & _).
  - intros [= <-]. by apply handleModeChange_supervised.
Qed.

Lemma run_supervised (o : WebSocketHook.Options) (evs : list Event) (d d' : State) :
  Supervised d → run o evs d = Some d' → Supervised d'.
Proof.
  revert d. induction evs as [|ev evs IH]; intros d Hsup; simpl.
  - by intros [= <-].
  - destruct (step o ev d) as [d1|] eqn:Hstep; simpl; [|done].
    apply IH. by eapply step_supervised.
Qed.

(** C2, as the code has it.  In a mounted dashboard the poll loop has a
    running interval exactly in polling mode.  When the push transport
    has reported that its attempts are used up, the render that follows
    switches to polling: the push transport then has neither a socket nor
    a timeout and the poll loop runs, so one transport is active.  A
    click on the mode toggle never touches the push transport.  Switched
    to websocket by hand (with the attempts not used up), the poll loop
    has no interval left and the snapshot shown is the push transport's.
    Switched to polling by hand, the poll loop runs, the push transport
    is as active as before, and the snapshot shown is the poll loop's. *)
Theorem supervisor_switches_mode
    (o : WebSocketHook.Options) (defaultMode : ConnectionMode)
    (evs : list Event) (d : State) :
  run o evs (mount o defaultMode) = Some d →
  (mode d = websocket → ¬ pull_active d) ∧
  (mode d = polling → pull_active d) ∧
  (wants_fallback d = true →
     mode (render d) = polling ∧ ¬ push_active (render d) ∧ pull_active (render d)) ∧
  (∀ newMode, ws (handleModeChange newMode d) = ws d) ∧
  (mode d = polling →
     wants_fallback {| mode := websocket; ws := ws d; poll := poll d |} = false →
     let d' := handleModeChange (Some websocket) d in
     mode d' = websocket ∧ ¬ pull_active d' ∧ activeData d' = WebSocketHook.data (ws d)) ∧
  (mode d = websocket →
     let d' := handleModeChange (Some polling) d in
     mode d' = polling ∧ pull_active d' ∧ (push_active d' ↔ push_active d) ∧
     activeData d' = PollingHook.data (poll d')).
Proof.
  intros Hrun.
  pose proof (run_supervised o evs _ d (mount_supervised o defaultMode) Hrun) as Hsup.
  pose proof Hsup as (Hs & Hg & Ht & Hm & Hoff & Hon).
  split_and!.
  - intros Hw Ha. by apply Ha, Hoff.
  - exact Hon.
  - intros Hw. destruct (render_supervised d Hs Hg Ht Hm) as (Hsup' & Hws & Hmode).
    rewrite Hw in Hmode. destruct Hsup' as (_ & _ & _ & _ & _ & Hon').
    split_and!; [done| |by apply Hon'].
    unfold push_active. rewrite Hws.
    unfold wants_fallback in Hw. apply andb_true_iff in Hw as [_ Hw].
    destruct (WebSocketHook.error (ws d)) as [e|] eqn:He; [|done].
    destruct (single_marker (ws d) e Hs He Hw) as [-> ->]. tauto.
  - intros newMode. by destruct (handleModeChange_supervised newMode d Hsup).
  - intros Hp Hw d'. subst d'. unfold handleModeChange.
    rewrite decide_False by congruence.
    destruct (render_supervised {| mode := websocket; ws := ws d; poll := poll d |})
      as (Hsup' & Hws & Hmode); try done.
    rewrite Hw in Hmode. simpl in Hmode.
    destruct Hsup' as (_ & _ & _ & _ & Hoff' & _).
    split_and!; [done| |].
    + intros Ha. by apply Ha, Hoff'.
    + unfold activeData. rewrite Hmode, Hws. by rewrite decide_True.
  - intros Hw d'. subst d'. unfold handleModeChange.
    rewrite decide_False by congruence.
    destruct (render_supervised {| mode := polling; ws := ws d; poll := poll d |})
      as (Hsup' & Hws & Hmode); try done.
    assert (mode (render {| mode := polling; ws := ws d; poll := poll d |}) = polling)
      as Hmode' by (rewrite Hmode; by destruct (wants_fallback _)).
    destruct Hsup' as (_ & _ & _ & _ & _ & Hon').
    split_and!; [done|by apply Hon'| |].
    + unfold push_active. by rewrite Hws.
    + unfold activeData. rewrite Hmode'. by rewrite decide_False.
Qed.

(** A dashboard whose socket has opened. *)
Lemma supervisor_switches_mode_witness :
  ∃ d, run WebSocketHook.defaults [Push (WebSocketHook.Opened 0); Rendered]
         (mount WebSocketHook.defaults websocket) = Some d ∧
       (mode d = websocket → ¬ pull_active d) ∧
       ∀ newMode, ws (handleModeChange newMode d) = ws d.
Proof.
  eexists. split; [reflexivity|].
  destruct (supervisor_switches_mode WebSocketHook.defaults websocket
              [Push (WebSocketHook.Opened 0); Rendered] _ eq_refl)
    as (H1 & _ & _ & H4 & _).
  split; [exact H1|exact H4].
Defined.

(** C2 as the specification has it fails: the socket of a dashboard in
    websocket mode has opened, and the user switches to polling.  The poll
    loop runs, and the socket of the push transport is still open: a
    message that arrives on it is taken, and becomes the push transport's
    snapshot. *)
Lemma manual_switch_keeps_socket :
  let snapshot := Store.getDashboardData 0 Store.empty in
  let d := run WebSocketHook.defaults
             [Push (WebSocketHook.Opened 0); Rendered; ModeChange (Some polling)]
             (mount WebSocketHook.defaults websocket) in
  let d' := d ≫= step WebSocketHook.defaults
                    (Push (WebSocketHook.Message 0 (Some snapshot))) in
  mode <$> d = Some polling ∧
  elements ∘ PollingHook.intervals ∘ poll <$> d = Some [1%nat] ∧
  map_to_list ∘ WebSocketHook.sockets ∘ ws <$> d = Some [(0%nat, WebSocket.OPEN)] ∧
  WebSocketHook.isConnected ∘ ws <$> d = Some true ∧
  WebSocketHook.data ∘ ws <$> d' = Some (Some snapshot).
Proof. by vm_compute. Qed.

End DashboardFacts.

(** ** Statistics, rowids and how the writes compose *)

Module StatsFacts.
Import Store StoreStats StoreFacts.









(** *** Rowids *)

Lemma numbered_insert (m : DashboardMetric) (db : DB) :
  Numbered db → Numbered (run_insert m db).
Proof.
  intros [Hs Hb]. unfold Numbered, run_insert. simpl. split.
  - rewrite fmap_app. apply StronglySorted_app. split_and!; [|done|repeat constructor].
    intros a b Ha Hb'. apply list_elem_of_singleton in Hb'. subst b. simpl.
    apply list_elem_of_fmap in Ha as (r & -> & Hr).
    rewrite Forall_forall in Hb. specialize (Hb r Hr). lia.
  - apply Forall_app. split.
    + eapply Forall_impl; [exact Hb|]. simpl. intros r Hr. lia.
    + repeat constructor. simpl. lia.
Qed.

Lemma numbered_fold (items : list DashboardMetric) (db : DB) :
  Numbered db → Numbered (foldl (λ d m, run_insert m d) db items).
Proof.
  revert db. induction items as [|m items IH]; intros db Hn; simpl; [done|].
  by apply IH, numbered_insert.
Qed.

Lemma sorted_ids_filter (P : Row → Prop) `{!∀ r, Decision (P r)} (rs : list Row) :
  StronglySorted Z.lt (row_id <$> rs) → StronglySorted Z.lt (row_id <$> filter P rs).
Proof.
  induction rs as [|r rs IH]; [done|].
  rewrite fmap_cons. intros [Hr Hs]%StronglySorted_cons.
  rewrite filter_cons. case_decide; [|by apply IH].
  rewrite fmap_cons. apply StronglySorted_cons. split; [|by apply IH].
  rewrite Forall_forall in *. intros x (r' & -> & Hr')%list_elem_of_fmap.
  apply Hr, list_elem_of_fmap_2. apply list_elem_of_filter in Hr'. tauto.
Qed.

Lemma numbered_delete (cutoff : Z) (db : DB) :
  Numbered db → Numbered (delete_older cutoff db).1.
Proof.
  intros [Hs Hb]. unfold Numbered, delete_older. simpl. split.
  - by apply sorted_ids_filter.
  - rewrite Forall_forall in *. intros r Hr%list_elem_of_filter. apply Hb. tauto.
Qed.

Lemma numbered_write (w : Write) (db : DB) : Numbered db → Numbered (write w db).
Proof.
  intros Hn. destruct w as [m|metrics|cutoff]; simpl.
  - by apply numbered_insert.
  - rewrite insertMany_fold. by apply numbered_fold.
  - by apply numbered_delete.
Qed.

Lemma numbered_writes (ws : list Write) (db : DB) : Numbered db → Numbered (writes ws db).
Proof.
  unfold writes. revert db. induction ws as [|w ws IH]; intros db Hn; simpl; [done|].
  by apply IH, numbered_write.
Qed.

(** The rows after a write are rows of before or have a rowid above the
    counter of before, and the counter does not go down. *)
Lemma write_fresh (w : Write) (db : DB) (bound : Z) :
  bound ≤ last_rowid db →
  bound ≤ last_rowid (write w db) ∧
  ∀ r, r ∈ rows (write w db) → r ∈ rows db ∨ bound < row_id r.
Proof.
  intros Hb. destruct w as [m|metrics|cutoff]; simpl.
  - split; [lia|]. intros r Hr%elem_of_app. destruct Hr as [Hr | Hr]; [by left|].
    apply list_elem_of_singleton in Hr. subst r. right. simpl. lia.
  - rewrite insertMany_fold. revert db Hb.
    induction metrics as [|m metrics IH]; intros db Hb; simpl.
    + split; [done|]. by left.
    + destruct (IH (run_insert m db)) as [Hl Hr]; [simpl; lia|].
      split; [done|]. intros r Hin. destruct (Hr r Hin) as [Hold | Hnew]; [|by right].
      simpl in Hold. apply elem_of_app in Hold as [? | Heq]; [by left|].
      apply list_elem_of_singleton in Heq. subst r. right. simpl. lia.
  - split; [done|]. intros r Hr%list_elem_of_filter. left. tauto.
Qed.

Lemma writes_fresh (ws : list Write) (db0 db : DB) :
  last_rowid db0 ≤ last_rowid db →
  (∀ r, r ∈ rows db → r ∈ rows db0 ∨ last_rowid db0 < row_id r) →
  last_rowid db0 ≤ last_rowid (writes ws db) ∧
  ∀ r, r ∈ rows (writes ws db) → r ∈ rows db0 ∨ last_rowid db0 < row_id r.
Proof.
  unfold writes. revert db. induction ws as [|w ws IH]; intros db Hb Hr; simpl; [done|].
  destruct (write_fresh w db (last_rowid db0) Hb) as [Hb' Hr'].
  apply IH; [done|]. intros r Hin. destruct (Hr' r Hin) as [Hold | Hnew]; [|by right].
  by apply Hr.
Qed.

Lemma sorted_lt_inj (rs : list Row) (r r' : Row) :
  StronglySorted Z.lt (row_id <$> rs) → r ∈ rs → r' ∈ rs → row_id r = row_id r' → r = r'.
Proof.
  induction rs as [|x rs IH]; intros Hs Hr Hr' Heq.
  - by apply elem_of_nil in Hr.
  - rewrite fmap_cons in Hs. apply StronglySorted_cons in Hs as [Hx Hs].
    rewrite Forall_forall in Hx.
    apply elem_of_cons in Hr as [-> | Hr]; apply elem_of_cons in Hr' as [-> | Hr'].
    + done.
    + specialize (Hx (row_id r') (list_elem_of_fmap_2 _ _ _ Hr')). lia.
    + specialize (Hx (row_id r) (list_elem_of_fmap_2 _ _ _ Hr)). lia.
    + by apply IH.
Qed.

(** X2.  In a store that was filled and cleaned by the service, starting
    empty, the rowids increase along the table, so that no two rows share
    one, and [insertMetric] returns a rowid above all of them.  A rowid is
    never given twice: whatever is written and deleted afterwards, a row
    that has the rowid of a row of now is that row. *)
Theorem rowids_unique_never_reused (before after : list Write) (m : DashboardMetric) :
  let db := writes before empty in
  StronglySorted Z.lt (row_id <$> rows db) ∧
  NoDup (row_id <$> rows db) ∧
  (insertMetric m db).2 = last_rowid db + 1 ∧
  (∀ r, r ∈ rows db → row_id r < (insertMetric m db).2) ∧
  (∀ r r', r ∈ rows db → r' ∈ rows (writes after db) → row_id r' = row_id r → r' = r).
Proof.
  intros db.
  assert (Numbered db) as [Hs Hb].
  { apply numbered_writes. split; [constructor|constructor]. }
  rewrite Forall_forall in Hb.
  split_and!.
  - done.
  - clear Hb. induction Hs as [|x l _ IH Hx]; constructor; [|done].
    intros Hin. rewrite Forall_forall in Hx. specialize (Hx x Hin). lia.
  - done.
  - intros r Hr. simpl. specialize (Hb r Hr). lia.
  - intros r r' Hr Hr' Heq.
    destruct (writes_fresh after db db) as [_ Hfresh]; [lia|by left|].
    destruct (Hfresh r' Hr') as [Hold | Hnew].
    + symmetry. by apply (sorted_lt_inj (rows db)).
    + specialize (Hb r Hr). lia.
Qed.

(** *** Cleanups one after the other *)



End StatsFacts.

(** ** What the generator writes *)

Module GeneratorFacts.
Import Store StoreStats Generator StoreFacts LineFacts AggregateFacts.

Lemma foldr_add_app (l k : list Z) :
  foldr Z.add 0 (l ++ k) = foldr Z.add 0 l + foldr Z.add 0 k.
Proof. rewrite foldr_app, foldr_add_from. lia. Qed.

Lemma batch_total_app (ty : MetricType) (c : string) (l k : list DashboardMetric) :
  batch_sum ty c (l ++ k) = batch_sum ty c l + batch_sum ty c k.
Proof. unfold batch_sum. by rewrite filter_app, fmap_app, foldr_add_app. Qed.

Lemma batch_total_other (ty ty' : MetricType) (c : string) (l : list DashboardMetric) :
  Forall (λ m, metricType m = ty') l → ty ≠ ty' → batch_sum ty c l = 0.
Proof.
  intros Hl Hne. unfold batch_sum. rewrite filter_none; [done|].
  intros m Hm [Hty _]. rewrite Forall_forall in Hl. specialize (Hl m Hm). congruence.
Qed.

Lemma stored_total (ty : MetricType) (c : string) (new : list Row)
    (items : list DashboardMetric) :
  Forall2 stored new items →
  foldr Z.add 0
    (row_value <$> filter (λ r, row_metricType r = ty ∧ row_category r = Some c) new) =
  batch_sum ty c items.
Proof.
  intros Hnew. unfold batch_sum. f_equal.
  induction Hnew as [|r m new items [id ->] _ IH]; [done|].
  destruct (decide (metricType m = ty ∧ or_null (category m) = Some c)) as [Hq|Hq].
  - rewrite (filter_cons_True _ m) by done.
    rewrite filter_cons_True by exact Hq. rewrite !fmap_cons. by f_equal.
  - rewrite (filter_cons_False _ m) by done.
    by rewrite filter_cons_False by exact Hq.
Qed.

Lemma category_total_batch (ty : MetricType) (c : string)
    (metrics : list DashboardMetric) (db : DB) :
  category_total ty c (insertMetricsBatch metrics db).1 =
  category_total ty c db + batch_sum ty c metrics.
Proof.
  unfold insertMetricsBatch. cbn [fst]. rewrite insertMany_fold.
  destruct (fold_insert_rows metrics db) as (new & Hrows & Hnew).
  unfold category_total. rewrite Hrows, filter_app, fmap_app, foldr_add_app.
  by rewrite (stored_total ty c new metrics).
Qed.

Lemma count_type_batch (ty : MetricType) (metrics : list DashboardMetric) (db : DB) :
  count_type ty (insertMetricsBatch metrics db).1 =
  count_type ty db + Z.of_nat (length (filter (λ m, metricType m = ty) metrics)).
Proof.
  unfold insertMetricsBatch. cbn [fst]. rewrite insertMany_fold.
  destruct (fold_insert_rows metrics db) as (new & Hrows & Hnew).
  unfold count_type. rewrite Hrows, filter_app, length_app.
  rewrite (stored_filter_length ty new metrics) by done. lia.
Qed.


(** *** Seeding *)

Lemma seed_line_types (now : Z) (intervalMs : JS.number) (rnd : entropy)
    (lines : list DashboardMetric) :
  seed_line now intervalMs rnd = Some lines →
  length lines = 61%nat ∧ Forall (λ m, metricType m = line) lines.
Proof.
  unfold seed_line. intros H%mapM_Some. split.
  - by rewrite <- (Forall2_length _ _ _ H).
  - eapply Forall2_Forall_r; [exact H|]. apply Forall_forall. intros k _ m.
    destruct (JS.toISOString _); simpl; [|done]. by intros [= <-].
Qed.

Lemma seed_categories_inv (ty : MetricType) (now base : Z) (k0 : nat) (rnd : entropy)
    (l : list DashboardMetric) :
  seed_categories ty now base k0 rnd = Some l → l = hour_categories ty now base k0 rnd.
Proof.
  unfold seed_categories, hour_categories, categories. simpl.
  case_decide; simpl; [|done]. by intros [= <-].
Qed.

Lemma filter_all {A} (P : A → Prop) `{!∀ x, Decision (P x)} (l : list A) :
  Forall P l → filter P l = l.
Proof.
  induction 1 as [|x l Hx _ IH]; [done|]. by rewrite filter_cons_True, IH.
Qed.

Lemma hour_categories_elem (ty : MetricType) (now base : Z) (k0 : nat) (rnd : entropy)
    (k : nat) (c : string) :
  categories !! k = Some c →
  category_metric ty now base rnd (k0 + k) c ∈ hour_categories ty now base k0 rnd.
Proof.
  intros Hk. unfold hour_categories.
  exact (elem_of_lookup_imap_2
           (λ k c, category_metric ty now base rnd (k0 + k) c) categories c k Hk).
Qed.

(** X5.  Whatever [hours] is, a seeding that does not throw inserts 69
    points in one batch: 61 [line] points and a [bar] and a [pie] point for
    each of the four categories.  The bar of the [k]-th category grows by
    the value drawn for it plus 100, its pie slice by the value drawn for
    it plus 50, and both charts have an entry for the category. *)
Theorem seed_inserts_69 (now : Z) (rnd : entropy) (hours : JS.number) (db db' : DB) (n : Z) :
  seedHistoricalData now rnd hours db = Some (db', n) →
  n = 69 ∧
  getTotalEvents db' = getTotalEvents db + 69 ∧
  count_type line db' = count_type line db + 61 ∧
  count_type bar db' = count_type bar db + 4 ∧
  count_type pie db' = count_type pie db + 4 ∧
  ∀ k c, categories !! k = Some c →
    category_total bar c db' = category_total bar c db + (rnd (61 + k)%nat + 100) ∧
    category_total pie c db' = category_total pie c db + (rnd (65 + k)%nat + 50) ∧
    c ∈ (getBarChartData db').*1 ∧ c ∈ (getPieChartData db').*1.
Proof.
  unfold seedHistoricalData. cbv zeta.
  destruct (seed_line now _ rnd) as [lines|] eqn:Hlines; cbn [mbind option_bind]; [|done].
  destruct (seed_categories bar now 100 61 rnd) as [bars|] eqn:Hbars;
    cbn [mbind option_bind]; [|done].
  destruct (seed_categories pie now 50 65 rnd) as [pies|] eqn:Hpies;
    cbn [mbind option_bind]; [|done].
  apply seed_line_types in Hlines as [Hlen Hty].
  apply seed_categories_inv in Hbars, Hpies. subst bars pies.
  set (items := lines ++ hour_categories bar now 100 61 rnd ++
                hour_categories pie now 50 65 rnd).
  intros Heq. injection Heq as Hdb Hn.
  change (insertMany items db) with (insertMetricsBatch items db).1 in Hdb.
  subst db' n.
  assert (length items = 69%nat) as Hitems.
  { unfold items. rewrite !length_app, Hlen. done. }
  assert (∀ ty, filter (λ m, metricType m = ty) items =
                filter (λ m, metricType m = ty) lines ++
                filter (λ m, metricType m = ty) (hour_categories bar now 100 61 rnd) ++
                filter (λ m, metricType m = ty) (hour_categories pie now 50 65 rnd)) as Hfilter.
  { intros ty. unfold items. by rewrite !filter_app. }
  assert (∀ ty c, batch_sum ty c items =
                  batch_sum ty c lines +
                  batch_sum ty c (hour_categories bar now 100 61 rnd) +
                  batch_sum ty c (hour_categories pie now 50 65 rnd)) as Hbatch.
  { intros ty c. unfold items. rewrite !batch_total_app. lia. }
  split_and!.
  - by rewrite Hitems.
  - rewrite StoreFacts.batch_total, Hitems. done.
  - rewrite count_type_batch, Hfilter, filter_all by done.
    rewrite !length_app, Hlen. done.
  - rewrite count_type_batch, Hfilter, (filter_none _ lines).
    + done.
    + intros m Hm. rewrite Forall_forall in Hty. rewrite (Hty m Hm). done.
  - rewrite count_type_batch, Hfilter, (filter_none _ lines).
    + done.
    + intros m Hm. rewrite Forall_forall in Hty. rewrite (Hty m Hm). done.
  - intros k c Hk.
    assert (category_total bar c (insertMetricsBatch items db).1 =
            category_total bar c db + (rnd (61 + k)%nat + 100)) as Hb.
    { rewrite category_total_batch, Hbatch, (batch_total_other bar line c lines) by done.
      unfold categories in Hk.
      destruct k as [|[|[|[|k]]]]; simpl in Hk; simplify_eq;
        cbv -[Z.add category_total]; lia. }
    assert (category_total pie c (insertMetricsBatch items db).1 =
            category_total pie c db + (rnd (65 + k)%nat + 50)) as Hp.
    { rewrite category_total_batch, Hbatch, (batch_total_other pie line c lines) by done.
      unfold categories in Hk.
      destruct k as [|[|[|[|k]]]]; simpl in Hk; simplify_eq;
        cbv -[Z.add category_total]; lia. }
    split_and!; [exact Hb|exact Hp| |].
    + destruct (aggregate_spec bar (insertMetricsBatch items db).1) as (_ & _ & Hkeys & _).
      apply Hkeys.
      assert (category_metric bar now 100 rnd (61 + k) c ∈ items) as Hin.
      { unfold items. apply elem_of_app. right. apply elem_of_app. left.
        by apply hour_categories_elem. }
      unfold insertMetricsBatch. cbn [fst]. rewrite insertMany_fold.
      destruct (fold_insert_rows items db) as (new & Hrows & Hnew).
      destruct (stored_elem_of_r _ _ _ Hnew Hin) as (r & Hr & id & ->).
      eexists. split; [rewrite Hrows; apply elem_of_app; right; exact Hr|].
      split; [done|]. simpl.
      unfold categories in Hk.
      destruct k as [|[|[|[|k]]]]; simpl in Hk; by simplify_eq.
    + destruct (aggregate_spec pie (insertMetricsBatch items db).1) as (_ & _ & Hkeys & _).
      apply Hkeys.
      assert (category_metric pie now 50 rnd (65 + k) c ∈ items) as Hin.
      { unfold items. apply elem_of_app. right. apply elem_of_app. right.
        by apply hour_categories_elem. }
      unfold insertMetricsBatch. cbn [fst]. rewrite insertMany_fold.
      destruct (fold_insert_rows items db) as (new & Hrows & Hnew).
      destruct (stored_elem_of_r _ _ _ Hnew Hin) as (r & Hr & id & ->).
      eexists. split; [rewrite Hrows; apply elem_of_app; right; exact Hr|].
      split; [done|]. simpl.
      unfold categories in Hk.
      destruct k as [|[|[|[|k]]]]; simpl in Hk; by simplify_eq.
Qed.

(** A seeding of one hour into the empty store, one hour after the
    epoch. *)
Lemma seed_inserts_69_witness :
  ∃ db' n, seedHistoricalData 3600000 (λ _, 0) (JS.Num 1) empty = Some (db', n) ∧
           n = 69 ∧ getTotalEvents db' = getTotalEvents empty + 69.
Proof.
  destruct (seedHistoricalData 3600000 (λ _, 0) (JS.Num 1) empty) as [[db' n]|] eqn:Hseed;
    [|vm_compute in Hseed; discriminate].
  exists db', n. split; [reflexivity|].
  destruct (seed_inserts_69 _ _ _ _ _ _ Hseed) as (Hn & Ht & _).
  split; [exact Hn|exact Ht].
Defined.

(** *** Continuous generation *)

Lemma realtime_metrics (now : Z) (rnd : entropy) (db : DB) :
  - JS.maxTime ≤ now ≤ JS.maxTime →
  ∃ metrics,
    generateRealtimeData now rnd db = Some ((insertMetricsBatch metrics db).1, metrics) ∧
    metrics =
      line_metric now rnd 0 ::
      imap (λ k c, {| timestamp := now; metricType := bar; category := Some c;
                      value := rnd (1 + k)%nat - 25; metadata := None |}) categories ++
      imap (λ k c, {| timestamp := now; metricType := pie; category := Some c;
                      value := rnd (5 + k)%nat - 15; metadata := None |}) categories.
Proof.
  intros Hnow. unfold generateRealtimeData. cbn [JS.toISOString].
  rewrite decide_True by done. cbn [mbind option_bind]. eexists. split; reflexivity.
Qed.

(** X7.  One round of generation at a valid instant writes nine points in
    one batch, all stamped with that instant: one [line] point, and for
    each category a [bar] delta and a [pie] delta that are added to the
    category's sums.  Unless the store holds a [line] point from after
    that instant, the line series then ends at it. *)
Theorem realtime_round (now : Z) (rnd : entropy) (db : DB) :
  - JS.maxTime ≤ now ≤ JS.maxTime →
  ∃ db' metrics,
    generateRealtimeData now rnd db = Some (db', metrics) ∧
    length metrics = 9%nat ∧
    Forall (λ m, timestamp m = now) metrics ∧
    getTotalEvents db' = getTotalEvents db + 9 ∧
    count_type line db' = count_type line db + 1 ∧
    (∀ k c, categories !! k = Some c →
       category_total bar c db' = category_total bar c db + (rnd (1 + k)%nat - 25) ∧
       category_total pie c db' = category_total pie c db + (rnd (5 + k)%nat - 15)) ∧
    ((∀ r, r ∈ line_rows db → row_timestamp r ≤ now) →
     ∃ v, last (getLineChartData 10 db') = Some (now, v)).
Proof.
  intros Hnow. destruct (realtime_metrics now rnd db Hnow) as (metrics & Hgen & Hm).
  exists (insertMetricsBatch metrics db).1, metrics.
  assert (Forall (λ m, timestamp m = now) metrics) as Hstamp.
  { subst metrics. unfold categories. repeat constructor. }
  split_and!.
  - exact Hgen.
  - by subst metrics.
  - exact Hstamp.
  - rewrite StoreFacts.batch_total. by subst metrics.
  - rewrite count_type_batch. by subst metrics.
  - intros k c Hk. rewrite !category_total_batch. subst metrics.
    unfold categories in Hk.
    destruct k as [|[|[|[|k]]]]; simpl in Hk; simplify_eq;
      split; cbv -[Z.add Z.sub category_total]; lia.
  - intros Hold. unfold insertMetricsBatch. cbn [fst]. rewrite insertMany_fold.
    destruct (fold_insert_rows metrics db) as (new & Hrows & Hnew).
    remember (foldl (λ d m, run_insert m d) db metrics) as db' eqn:Hdb'. clear Hdb'.
    assert (line_metric now rnd 0 ∈ metrics) as Hin by (subst metrics; left).
    destruct (stored_elem_of_r _ _ _ Hnew Hin) as (r & Hr & id & ->).
    assert (line_rows db' = line_rows db ++ filter (is_type line) new) as Hlines.
    { unfold line_rows. by rewrite Hrows, filter_app. }
    destruct (line_series_last 10 db' (row_of id (line_metric now rnd 0))) as [v Hv].
    + done.
    + rewrite Hlines. apply elem_of_app. right. by apply list_elem_of_filter.
    + intros r'. rewrite Hlines, elem_of_app.
      unfold row_of at 1. cbn [row_timestamp line_metric timestamp].
      intros [Hr' | Hr']; [by apply Hold|].
      apply list_elem_of_filter in Hr' as [_ Hr'].
      destruct (stored_elem_of_l _ _ _ Hnew Hr') as (m & Hm' & id' & ->).
      rewrite Forall_forall in Hstamp. cbn [row_of row_timestamp].
      rewrite (Hstamp m Hm'). lia.
    + exists v. exact Hv.
Qed.

(** A round of generation in the empty store, at the epoch. *)
Lemma realtime_round_witness :
  - JS.maxTime ≤ 0 ≤ JS.maxTime ∧
  ∃ db' metrics, generateRealtimeData 0 (λ _, 30) empty = Some (db', metrics) ∧
                 getTotalEvents db' = getTotalEvents empty + 9.
Proof.
  assert (- JS.maxTime ≤ 0 ≤ JS.maxTime) as Hnow by (unfold JS.maxTime; lia).
  split; [exact Hnow|].
  destruct (realtime_round 0 (λ _, 30) empty Hnow) as (db' & metrics & Hgen & _ & _ & Ht & _).
  exists db', metrics. split; [exact Hgen|exact Ht].
Defined.

End GeneratorFacts.

(** ** The running server *)

Module ServerLoopFacts.
Import Store StoreStats WebSocket Server ServerLoop StoreFacts LineFacts ServerFacts.

(** X8.  At start-up with a valid clock an empty database is seeded: it
    then holds 69 points, and the first dashboard shows a line series of
    10 points; a database that holds a point is left as it is. *)
Theorem startup_seeds_empty_store (now at_ : Z) (rnd : Generator.entropy) (db : DB) :
  - JS.maxTime + 3600000 ≤ now ≤ JS.maxTime →
  (rows db = [] →
   ∃ db', startup now rnd db = Some db' ∧
          getTotalEvents db' = 69 ∧
          length (lineChartData (getDashboardData at_ db')) = 10%nat) ∧
  (rows db ≠ [] → startup now rnd db = Some db).
Proof.
  intros Hnow. unfold startup. cbn [getStats totalMetrics]. split.
  - intros Hempty. rewrite Hempty. cbn [length]. rewrite decide_True by done.
    rewrite seed_hour by done. cbn [fmap option_fmap option_map fst].
    eexists. split; [reflexivity|]. split.
    + rewrite StoreFacts.batch_total. unfold getTotalEvents. by rewrite Hempty.
    + unfold insertMetricsBatch. cbn [fst]. rewrite insertMany_fold.
      destruct (fold_insert_rows (Generator.hour now rnd) db) as (new & Hrows & Hnew).
      remember (foldl (λ d m, run_insert m d) db (Generator.hour now rnd)) as db' eqn:Hdb'.
      clear Hdb'.
      unfold getDashboardData. cbn [lineChartData].
      rewrite line_series_length by done.
      unfold line_rows. rewrite Hrows, filter_app, length_app.
      rewrite (stored_filter_length line new (Generator.hour now rnd)) by done.
      rewrite hour_line_count. change (Z.to_nat 10) with 10%nat. lia.
  - intros Hne. rewrite decide_False; [done|].
    destruct (rows db); [done|]. simpl. lia.
Qed.

(** The empty database, one hour after the epoch. *)
Lemma startup_seeds_empty_store_witness :
  - JS.maxTime + 3600000 ≤ 3600000 ≤ JS.maxTime ∧
  rows empty = [] ∧
  ∃ db', startup 3600000 (λ _, 0) empty = Some db' ∧ getTotalEvents db' = 69.
Proof.
  assert (- JS.maxTime + 3600000 ≤ 3600000 ≤ JS.maxTime) as Hnow
    by (unfold JS.maxTime; lia).
  split_and!; [apply Hnow|apply Hnow|reflexivity|].
  destruct (startup_seeds_empty_store 3600000 0 (λ _, 0) empty Hnow) as [Hseed _].
  destruct (Hseed eq_refl) as (db' & Hstart & Ht & _).
  exists db'. split; [exact Hstart|exact Ht].
Defined.

(** *** The generation interval *)

(** X10.  When the generation interval fires at a valid instant and no
    [send] raises, first the nine new points are written, then the
    snapshot is taken: every open connection is handed one update that
    carries the event count of after the write, the same snapshot a
    dashboard request gets at that moment, and connections that are not
    open are passed over. *)
Theorem tick_writes_then_broadcasts (now at_ : Z) (rnd : Generator.entropy) (st : State) :
  - JS.maxTime ≤ now ≤ JS.maxTime →
  Forall (λ c, readyState c = OPEN → send_throws c = false) (clients st) →
  ∃ st' m,
    generation_tick now at_ rnd st = Some st' ∧
    getTotalEvents (agentDB st') = getTotalEvents (agentDB st) + 9 ∧
    clients st' = delivered m <$> clients st ∧
    msg_type m = update ∧
    totalEvents (msg_data m) = getTotalEvents (agentDB st) + 9 ∧
    msg_data m = payload (get_dashboard at_ st').
Proof.
  intros Hnow Hok.
  destruct (GeneratorFacts.realtime_metrics now rnd (agentDB st) Hnow) as (metrics & Hgen & Hm).
  unfold generation_tick. rewrite Hgen. cbn [mbind option_bind].
  set (db := (insertMetricsBatch metrics (agentDB st)).1).
  assert (getTotalEvents db = getTotalEvents (agentDB st) + 9) as Htotal.
  { unfold db. rewrite StoreFacts.batch_total. by subst metrics. }
  set (mid := {| agentDB := db; clients := clients st |}).
  unfold broadcastUpdate. cbn [clients agentDB]. case_decide as Hn.
  - exists mid, (update_message at_ mid). split_and!; try done.
    destruct (clients st); [done|]. simpl in Hn. lia.
  - rewrite forEach_send_ok by done. cbn [fst snd].
    eexists _, (update_message at_ mid). split_and!; try done.
Qed.

(** One open connection, at the epoch. *)
Lemma tick_writes_then_broadcasts_witness :
  let c := {| client_id := 1; readyState := OPEN; sent := []; send_throws := false |} in
  let st := {| agentDB := empty; clients := [c] |} in
  - JS.maxTime ≤ 0 ≤ JS.maxTime ∧
  Forall (λ c, readyState c = OPEN → send_throws c = false) (clients st) ∧
  ∃ st', generation_tick 0 0 (λ _, 30) st = Some st' ∧
         getTotalEvents (agentDB st') = getTotalEvents (agentDB st) + 9.
Proof.
  intros c st.
  assert (- JS.maxTime ≤ 0 ≤ JS.maxTime) as Hnow by (unfold JS.maxTime; lia).
  assert (Forall (λ c, readyState c = OPEN → send_throws c = false) (clients st)) as Hok
    by (repeat constructor).
  split_and!; [apply Hnow|apply Hnow|exact Hok|].
  destruct (tick_writes_then_broadcasts 0 0 (λ _, 30) st Hnow Hok)
    as (st' & m & Htick & Ht & _).
  exists st'. split; [exact Htick|exact Ht].
Defined.

(** *** The life of a connection *)

Section Connections.
Variable StringToNumber : string → JS.number.

Lemma forEach_send_elem (m : Message) (cs : list Client) (c' : Client) :
  c' ∈ (forEach_send m cs).1 →
  ∃ c, c ∈ cs ∧ client_id c' = client_id c ∧ (sent c' = sent c ∨ sent c' = sent c ++ [m]).
Proof.
  induction cs as [|c cs IH]; simpl; [by intros ?%elem_of_nil|].
  case_decide.
  - unfold send. destruct (send_throws c); simpl.
    + intros Hin. exists c'. split; [done|]. split; [done|by left].
    + intros [-> | Hin]%elem_of_cons.
      * exists c. split; [left|]. split; [done|by right].
      * destruct (IH Hin) as (c0 & ? & ? & ?). exists c0. split; [by right|done].
  - intros [-> | Hin]%elem_of_cons.
    + exists c. split; [left|]. split; [done|by left].
    + destruct (IH Hin) as (c0 & ? & ? & ?). exists c0. split; [by right|done].
Qed.

(** What an event does to the connections: those of after are connections
    of before, with what they were sent and possibly one message more, or
    the connection the event brings in. *)
Lemma handle_clients (ev : Event) (st st' : State) (c' : Client) :
  handle StringToNumber ev st = Some st' → c' ∈ clients st' →
  (∃ c, c ∈ clients st ∧ client_id c' = client_id c ∧ ∃ more, sent c' = sent c ++ more) ∨
  (∃ c now, ev = Connection c now ∧ client_id c' = client_id c ∧
            send_throws c = false ∧
            sent c' = sent c ++ [{| msg_type := initial;
                                    msg_data := getDashboardData now (agentDB st);
                                    msg_timestamp := None |}]).
Proof.
  assert (∀ c, c ∈ clients st →
            ∃ c0, c0 ∈ clients st ∧ client_id c = client_id c0 ∧
                  ∃ more, sent c = sent c0 ++ more) as Hsame.
  { intros c Hc. exists c. split; [done|]. split; [done|]. exists []. by rewrite app_nil_r. }
  destruct ev as [c now|id|now at_ rnd|now rnd hours|now hours|now]; simpl.
  - unfold on_connection, send. destruct (send_throws c) eqn:Ht; [done|].
    intros [= <-]. simpl. intros [Hin | Hin]%elem_of_app.
    + left. by apply Hsame.
    + apply list_elem_of_singleton in Hin. subst c'. right. by exists c, now.
  - intros [= <-]. simpl. intros [_ Hin]%list_elem_of_filter. left. by apply Hsame.
  - unfold generation_tick.
    destruct (Generator.generateRealtimeData now rnd (agentDB st)) as [[db ms]|]; [|done].
    cbn [mbind option_bind]. unfold broadcastUpdate. cbn [clients agentDB].
    case_decide.
    + intros [= <-]. simpl. intros Hin. left. by apply Hsame.
    + destruct (forEach_send _ (clients st)) as [cs out] eqn:Hsend.
      cbn [fst snd]. destruct out; [|done]. intros [= <-]. simpl. intros Hin.
      left.
      pose proof (forEach_send_elem
                    (update_message at_ {| agentDB := db; clients := clients st |})
                    (clients st) c') as Hel.
      rewrite Hsend in Hel. destruct (Hel Hin) as (c0 & Hc0 & Hid & [Hs | Hs]).
      * exists c0. split; [done|]. split; [done|]. exists []. by rewrite app_nil_r.
      * exists c0. split; [done|]. split; [done|]. eexists. exact Hs.
  - intros [= <-]. unfold post_seed.
    destruct (Generator.seedHistoricalData _ _ _ _) as [[db n]|]; simpl;
      intros Hin; left; by apply Hsame.
  - intros [= <-]. unfold delete_cleanup.
    destruct (cleanupOldData _ _ _) as [[db n]|]; simpl;
      intros Hin; left; by apply Hsame.
  - intros [= <-] Hin. left. by apply Hsame.
Qed.



(** X11.  Once the [close] or [error] handler of a socket has run, the
    socket is not in the set, and it is not in the set again whatever
    follows, unless it connects anew; the other connections are those of
    before, in their order. *)
Theorem closed_connection_stays_out
    (id : nat) (st st' : State) (evs : list Event) :
  Forall (λ ev, ¬ connects id ev) evs →
  serve StringToNumber evs (delete_client id st) = Some st' →
  Forall (λ c, client_id c ≠ id) (clients st') ∧
  clients (delete_client id st) = filter (λ c, client_id c ≠ id) (clients st) ∧
  agentDB (delete_client id st) = agentDB st.
Proof.
  intros Hevs Hserve. split; [|done].
  assert (Forall (λ c, client_id c ≠ id) (clients (delete_client id st))) as Hout.
  { apply Forall_forall. intros c Hc%list_elem_of_filter. tauto. }
  revert Hserve Hout. generalize (delete_client id st). clear st.
  induction evs as [|ev evs IH]; intros st; simpl.
  - by intros [= <-].
  - destruct (handle StringToNumber ev st) as [st1|] eqn:Hev; simpl; [|done].
    apply Forall_cons in Hevs as [Hev0 Hevs]. intros Hserve Hout.
    apply (IH Hevs st1 Hserve). apply Forall_forall. intros c1 Hc1.
    rewrite Forall_forall in Hout.
    destruct (handle_clients ev st st1 c1 Hev Hc1)
      as [(c0 & Hc0 & Hid0 & _) | (c0 & now0 & -> & Hid0 & _)].
    + rewrite Hid0. by apply Hout.
    + simpl in Hev0. congruence.
Qed.

End Connections.


(** Two connections, the first of which closes before a round of
    generation. *)
Lemma closed_connection_stays_out_witness :
  let c1 := {| client_id := 1; readyState := OPEN; sent := []; send_throws := false |} in
  let c2 := {| client_id := 2; readyState := OPEN; sent := []; send_throws := false |} in
  let st := {| agentDB := empty; clients := [c1; c2] |} in
  Forall (λ ev, ¬ connects 1 ev) [Generated 0 0 (λ _, 30)] ∧
  ∃ st', serve (λ _, JS.NaN) [Generated 0 0 (λ _, 30)] (delete_client 1 st) = Some st' ∧
         Forall (λ c, client_id c ≠ 1%nat) (clients st').
Proof.
  intros c1 c2 st.
  assert (Forall (λ ev, ¬ connects 1 ev) [Generated 0 0 (λ _, 30)]) as Hevs.
  { repeat constructor. simpl. tauto. }
  split; [exact Hevs|].
  destruct (serve (λ _, JS.NaN) [Generated 0 0 (λ _, 30)] (delete_client 1 st))
    as [st'|] eqn:Hserve; [|vm_compute in Hserve; discriminate].
  exists st'. split; [reflexivity|].
  by destruct (closed_connection_stays_out (λ _, JS.NaN) 1 st st' _ Hevs Hserve) as [H _].
Defined.

End ServerLoopFacts.

(** ** Sessions of the push transport *)

Module HookTraceFacts.
Import Store WebSocket WebSocketHook HookTraces.

(** *** The attempt counter *)


Lemma close_counters (ws : nat) (h : Hook) :
  reconnectAttemptRef (close ws h) = reconnectAttemptRef h ∧
  reconnectAttempt (close ws h) = reconnectAttempt h ∧
  mountedRef (close ws h) = mountedRef h.
Proof. unfold close. destruct (sockets h !! ws) as [[]|]; done. Qed.




(** *** The snapshot *)



(** *** Sessions without manual reconnects *)

Lemma from_browser_neq (ev : Event) : from_browser ev → ev ≠ Reconnect ∧ ev ≠ Unmount.
Proof. by destruct ev. Qed.

Lemma mount_owned (o : Options) : Owned (mount o).
Proof.
  split; [apply DashboardFacts.mount_single|].
  unfold mount, connect. simpl. destruct (url_ok o); simpl.
  - split_and!.
    + intros ws st [[<- <-] | [_ Hl]]%lookup_insert_Some;
        [|by rewrite lookup_empty in Hl].
      split; [done|by left].
    + set_solver.
    + split; [done|]. intros [ws [[_ ?] | [_ Hl]]%lookup_insert_Some]; [done|].
      by rewrite lookup_empty in Hl.
  - split_and!; [by intros ws st ?|set_solver|].
    split; [done|]. by intros [ws ?].
Qed.

Lemma step_owned (o : Options) (ev : Event) (h h' : Hook) :
  Owned h → from_browser ev → step o ev h = Some h' → Owned h'.
Proof.
  intros (Hsingle & Ha & Hb & Hc) Hev Hstep.
  destruct (from_browser_neq ev Hev) as [Hr Hu].
  split; [by eapply DashboardFacts.step_single|].
  destruct Hsingle as (Hm & Hi & He & Hone).
  destruct ev as [ws|ws payload|ws|ws|t| |]; simpl in Hstep; try done.
  - case_decide as Hws; [|done]. injection Hstep as <-. simpl. split_and!.
    + intros ws' st [[<- <-] | [_ Hl]]%lookup_insert_Some.
      * split; [by apply (Ha ws CONNECTING)|by right].
      * by apply Ha.
    + done.
    + split; [|done]. intros _. exists ws. apply lookup_insert_eq.
  - case_decide; [|done]. injection Hstep as <-. by destruct payload.
  - case_decide; [|done]. by injection Hstep as <-.
  - case_decide as Hws; [|done]. injection Hstep as <-.
    destruct Hone as [(ws' & st & Hs & Ht) | [Hs _]].
    2: { rewrite Hs, lookup_empty in Hws. by destruct Hws. }
    assert (ws = ws') as ->.
    { rewrite Hs in Hws. destruct Hws as [x Hx].
      by apply lookup_singleton_Some in Hx as [-> _]. }
    assert (delete ws' (sockets h) = ∅) as Hdel by (rewrite Hs; apply delete_singleton_eq).
    unfold onclose. simpl. rewrite Hi, Hm. simpl.
    destruct (reconnectAttemptRef h <? maxReconnectAttempts o)%nat; simpl.
    + rewrite ?Hdel, ?Ht. split_and!.
      * intros ws0 st0 Hl. by rewrite lookup_empty in Hl.
      * intros t Hin. assert (t = next h) as -> by set_solver. done.
      * split; [done|]. intros [ws0 Hl]. by rewrite lookup_empty in Hl.
    + destruct (maxReconnectAttempts o <=? reconnectAttemptRef h)%nat; simpl;
        rewrite ?Hdel, ?Ht; split_and!;
        try (intros ws0 st0 Hl; by rewrite lookup_empty in Hl);
        try set_solver;
        (split; [done|]; intros [ws0 Hl]; by rewrite lookup_empty in Hl).
  - case_decide as Ht'; [|done]. injection Hstep as <-.
    assert (sockets h = ∅ ∧ timers h = {[t]}) as [Hs Ht].
    { destruct Hone as [(ws' & st & Hs & Ht) | [Hs [Ht | [t' Ht]]]].
      1, 2: rewrite Ht in Ht'; set_solver.
      split; [done|]. rewrite Ht in *. assert (t = t') as -> by set_solver. done. }
    assert (isConnected h = false) as Hoff.
    { destruct (isConnected h); [|done]. destruct Hc as [Hc _].
      destruct (Hc eq_refl) as [ws Hl]. by rewrite Hs, lookup_empty in Hl. }
    unfold connect. simpl. rewrite Hm. simpl. destruct (url_ok o); simpl.
    + rewrite Hs, Ht, Hoff. split_and!.
      * intros ws st [[<- <-] | [_ Hl]]%lookup_insert_Some;
          [|by rewrite lookup_empty in Hl].
        split; [done|by left].
      * set_solver.
      * split; [done|]. intros [ws [[_ ?] | [_ Hl]]%lookup_insert_Some]; [done|].
        by rewrite lookup_empty in Hl.
    + rewrite Hs, Ht, Hoff. split_and!.
      * intros ws st Hl. by rewrite lookup_empty in Hl.
      * set_solver.
      * split; [done|]. intros [ws Hl]. by rewrite lookup_empty in Hl.
Qed.

Lemma run_owned (o : Options) (evs : list Event) (h h' : Hook) :
  Owned h → Forall from_browser evs → run o evs h = Some h' → Owned h'.
Proof.
  revert h. induction evs as [|ev evs IH]; intros h Hh Hevs; simpl.
  - by intros [= <-].
  - destruct (step o ev h) as [h1|] eqn:Hstep; simpl; [|done].
    apply Forall_cons in Hevs as [Hev Hevs].
    apply IH; [|done]. by eapply step_owned.
Qed.

(** X15.  In a session without manual reconnects the [isConnected] the
    hook returns is true exactly when the socket the hook holds is open;
    there is never a socket the hook does not hold, never a socket
    together with a pending retry, and never more than one pending
    retry, the one [reconnectTimeoutRef] names. *)
Theorem isConnected_tracks_socket (o : Options) (evs : list Event) (h : Hook) :
  Forall from_browser evs →
  run o evs (mount o) = Some h →
  (isConnected h = true ↔ phase h = OPEN_) ∧
  (∀ ws, is_Some (sockets h !! ws) → wsRef h = Some ws ∧ timers h = ∅) ∧
  (∀ t, t ∈ timers h → reconnectTimeoutRef h = Some t ∧ timers h = {[t]} ∧ sockets h = ∅).
Proof.
  intros Hevs Hrun.
  destruct (run_owned o evs _ h (mount_owned o) Hevs Hrun)
    as ((_ & _ & _ & Hone) & Ha & Hb & Hc).
  split_and!.
  - rewrite Hc. unfold phase. split.
    + intros [ws Hl]. destruct (Ha ws OPEN Hl) as [-> _]. by rewrite Hl.
    + destruct (wsRef h) as [ws|].
      * destruct (sockets h !! ws) as [[]|] eqn:Hl; try done. intros _. by exists ws.
      * repeat case_decide; done.
  - intros ws [st Hl]. split; [by apply (Ha ws st)|].
    destruct Hone as [(ws' & st' & Hs & Ht) | [Hs _]]; [done|].
    by rewrite Hs, lookup_empty in Hl.
  - intros t Hin. split; [by apply Hb|].
    destruct Hone as [(ws' & st' & Hs & Ht) | [Hs [Ht | [t' Ht]]]].
    1, 2: rewrite Ht in Hin; set_solver.
    split; [|done]. rewrite Ht in *. assert (t = t') as -> by set_solver. done.
Qed.

(** A session that opens, loses its connection and retries. *)
Lemma isConnected_tracks_socket_witness :
  Forall from_browser [Opened 0; Errored 0; Closed 0; TimerFired 1; Opened 2] ∧
  ∃ h, run defaults [Opened 0; Errored 0; Closed 0; TimerFired 1; Opened 2]
           (mount defaults) = Some h ∧
       (isConnected h = true ↔ phase h = OPEN_).
Proof.
  assert (Forall from_browser [Opened 0; Errored 0; Closed 0; TimerFired 1; Opened 2])
    as Hevs by (repeat constructor).
  split; [exact Hevs|].
  destruct (run defaults [Opened 0; Errored 0; Closed 0; TimerFired 1; Opened 2]
              (mount defaults)) as [h|] eqn:Hrun; [|vm_compute in Hrun; discriminate].
  exists h. split; [reflexivity|].
  by destruct (isConnected_tracks_socket defaults _ h Hevs Hrun) as [Hiff _].
Defined.

(** *** The unmount *)

Lemma cleanup_fields (h : Hook) :
  mountedRef (cleanup h) = false ∧ wsRef (cleanup h) = None ∧
  next (cleanup h) = next h ∧ data (cleanup h) = data h ∧
  isConnected (cleanup h) = isConnected h ∧
  timers (cleanup h) = timers h ∖ match reconnectTimeoutRef h with
                                   | Some t => {[t]}
                                   | None => ∅
                                   end ∧
  sockets (cleanup h) = match wsRef h with
                        | Some ws =>
                            match sockets h !! ws with
                            | Some OPEN | Some CONNECTING => <[ws := CLOSING]> (sockets h)
                            | _ => sockets h
                            end
                        | None => sockets h
                        end.
Proof.
  unfold cleanup, clearTimeout, close. simpl.
  destruct (reconnectTimeoutRef h); simpl;
    (destruct (wsRef h) as [ws|] eqn:Hw; simpl; rewrite ?Hw;
     [destruct (sockets h !! ws) as [[]|] eqn:Hl; simpl; rewrite ?Hl; simpl|]);
    split_and!; try done; set_solver.
Qed.

Lemma cleanup_unmounted (h : Hook) : Owned h → Unmounted (cleanup h).
Proof.
  intros (_ & Ha & Hb & _).
  destruct (cleanup_fields h) as (Hm & _ & _ & _ & _ & Ht & Hs).
  unfold Unmounted. rewrite Hm, Ht, Hs. split_and!; [done| |].
  - apply set_eq. intros t'. split; [|set_solver].
    intros [Hin Hne]%elem_of_difference. pose proof (Hb _ Hin) as Hr.
    rewrite Hr in Hne. set_solver.
  - intros ws' st'. destruct (wsRef h) as [ws|] eqn:Hwr.
    + destruct (sockets h !! ws) as [st|] eqn:Hl.
      * destruct (Ha ws st Hl) as [_ [-> | ->]];
          intros [[<- <-] | [Hne Hl']]%lookup_insert_Some; try done;
          destruct (Ha ws' st' Hl') as [? _]; congruence.
      * intros Hl'. destruct (Ha ws' st' Hl') as [? _]. congruence.
    + intros Hl'. destruct (Ha ws' st' Hl') as [? _]. congruence.
Qed.

Lemma step_unmounted (o : Options) (ev : Event) (h h' : Hook) :
  Unmounted h → step o ev h = Some h' →
  Unmounted h' ∧ data h' = data h ∧ next h' = next h ∧ isConnected h' = false ∨
  Unmounted h' ∧ data h' = data h ∧ next h' = next h ∧ isConnected h' = isConnected h.
Proof.
  intros (Hm & Ht & Hs) Hstep.
  destruct ev as [ws|ws payload|ws|ws|t| |]; simpl in Hstep.
  - case_decide as Hws; [|done]. by apply Hs in Hws.
  - case_decide as Hws; [|done]. by apply Hs in Hws.
  - case_decide; [|done]. injection Hstep as <-. by right.
  - case_decide as Hws; [|done]. injection Hstep as <-. left.
    assert (∀ ws' st, delete ws (sockets h) !! ws' = Some st → st = CLOSING) as Hs'.
    { intros ws' st [_ Hl]%lookup_delete_Some. by eapply Hs. }
    unfold onclose. simpl. rewrite Hm. simpl.
    destruct (intentionalCloseRef h); simpl; [done|].
    destruct (maxReconnectAttempts o <=? reconnectAttemptRef h)%nat; done.
  - case_decide as Hin; [|done]. rewrite Ht in Hin. set_solver.
  - injection Hstep as <-. right. unfold reconnect, connect.
    assert (∀ ws, close ws h = h) as Hclose.
    { intros ws. unfold close. destruct (sockets h !! ws) as [st|] eqn:Hl; [|done].
      apply Hs in Hl. by subst. }
    destruct (wsRef h) as [ws|]; rewrite ?Hclose; simpl; rewrite Hm; done.
  - injection Hstep as <-. right.
    destruct (cleanup_fields h) as (Hm' & _ & Hn & Hd & Hc & Ht' & Hs').
    split; [|done]. unfold Unmounted. rewrite Hm', Ht', Hs', Ht.
    split_and!; [done|set_solver|].
    destruct (wsRef h) as [ws|]; [|done].
    destruct (sockets h !! ws) as [st|] eqn:Hl; [|done].
    apply Hs in Hl. by subst.
Qed.

(** X14.  When the component unmounts after a session without manual
    reconnects, the pending retry is cancelled and the socket the hook
    holds is closing.  Whatever happens afterwards, reconnect calls
    included, no timeout is pending, no socket and no timeout is
    created, no socket opens or delivers, and the snapshot stays the one
    of the unmount. *)
Theorem unmount_is_final (o : Options) (before after : list Event) (h h' : Hook) :
  Forall from_browser before →
  run o before (mount o) = Some h →
  run o after (cleanup h) = Some h' →
  mountedRef h' = false ∧ timers h' = ∅ ∧
  (∀ ws st, sockets h' !! ws = Some st → st = CLOSING) ∧
  next h' = next h ∧ data h' = data h.
Proof.
  intros Hevs Hrun Hafter.
  pose proof (run_owned o before _ h (mount_owned o) Hevs Hrun) as Hown.
  pose proof (cleanup_unmounted h Hown) as Hun.
  destruct (cleanup_fields h) as (_ & _ & <- & <- & _).
  revert Hafter Hun. generalize (cleanup h). clear.
  intros h0. revert h0. induction after as [|ev evs IH]; intros h0; simpl.
  - intros [= <-] (? & ? & ?). done.
  - destruct (step o ev h0) as [h1|] eqn:Hstep; simpl; [|done].
    intros Hrun Hun.
    destruct (step_unmounted o ev h0 h1 Hun Hstep)
      as [(Hun1 & <- & <- & _) | (Hun1 & <- & <- & _)]; by apply IH.
Qed.

(** The component unmounts while its socket is open; the socket then
    reports its close, and [reconnect] is called once more. *)
Lemma unmount_is_final_witness :
  Forall from_browser [Opened 0] ∧
  ∃ h h', run defaults [Opened 0] (mount defaults) = Some h ∧
          run defaults [Closed 0; Reconnect] (cleanup h) = Some h' ∧
          sockets h' = ∅ ∧ timers h' = ∅ ∧ next h' = next h.
Proof.
  assert (Forall from_browser [Opened 0]) as Hevs by (repeat constructor).
  split; [exact Hevs|].
  destruct (run defaults [Opened 0] (mount defaults)) as [h|] eqn:Hrun;
    [|vm_compute in Hrun; discriminate].
  destruct (run defaults [Closed 0; Reconnect] (cleanup h)) as [h'|] eqn:Hafter.
  2: { vm_compute in Hrun. injection Hrun as <-. vm_compute in Hafter. discriminate. }
  exists h, h'. split; [reflexivity|]. split; [exact Hafter|].
  destruct (unmount_is_final defaults _ _ h h' Hevs Hrun Hafter) as (_ & Ht & _ & Hn & _).
  split; [|split; [exact Ht|exact Hn]].
  vm_compute in Hrun. injection Hrun as <-.
  vm_compute in Hafter. injection Hafter as <-. reflexivity.
Defined.

(** *** Manual reconnect after the attempts are used up *)



End HookTraceFacts.

(** ** Sessions of the pull transport *)

Module PollingTraceFacts.
Import Store PollingHook PollingTraces.

Lemma fetchData_view (p : Poll) :
  data (fetchData p) = data p ∧ error (fetchData p) = error p ∧
  reported (fetchData p) = reported p ∧ lastFetch (fetchData p) = lastFetch p ∧
  loading (fetchData p) = loading p ∧ mountedRef (fetchData p) = mountedRef p ∧
  enabled (fetchData p) = enabled p.
Proof.
  unfold fetchData.
  destruct (negb (mountedRef p) || fetchingRef p || negb (enabled p)); done.
Qed.

Lemma stop_interval_view (p : Poll) :
  data (stop_interval p) = data p ∧ error (stop_interval p) = error p ∧
  reported (stop_interval p) = reported p ∧ lastFetch (stop_interval p) = lastFetch p ∧
  loading (stop_interval p) = loading p ∧ mountedRef (stop_interval p) = mountedRef p ∧
  enabled (stop_interval p) = enabled p ∧ next (stop_interval p) = next p ∧
  inflight (stop_interval p) = inflight p ∧ fetchingRef (stop_interval p) = fetchingRef p ∧
  intervals (stop_interval p) ⊆ intervals p.
Proof.
  unfold stop_interval. destruct (intervalRef p); simpl; split_and!; try done; set_solver.
Qed.

Lemma effect_cleanup_view (p : Poll) :
  data (effect_cleanup p) = data p ∧ error (effect_cleanup p) = error p ∧
  reported (effect_cleanup p) = reported p ∧ lastFetch (effect_cleanup p) = lastFetch p ∧
  loading (effect_cleanup p) = loading p ∧ mountedRef (effect_cleanup p) = mountedRef p ∧
  enabled (effect_cleanup p) = enabled p ∧ next (effect_cleanup p) = next p ∧
  inflight (effect_cleanup p) = inflight p ∧
  fetchingRef (effect_cleanup p) = fetchingRef p ∧
  intervals (effect_cleanup p) ⊆ intervals p.
Proof.
  unfold effect_cleanup. destruct (has_cleanup p); simpl; [|done].
  apply stop_interval_view.
Qed.

Lemma effects_view (p : Poll) :
  data (effects p) = data p ∧ error (effects p) = error p ∧
  reported (effects p) = reported p ∧ lastFetch (effects p) = lastFetch p ∧
  loading (effects p) = loading p.
Proof.
  unfold effects. destruct (enabled p) eqn:He.
  - destruct (fetchData_view p) as (Hd & Her & Hr & Hl & Hlo & _ & Hen).
    rewrite Hen, He. simpl. by rewrite Hd, Her, Hr, Hl, Hlo.
  - rewrite He. simpl. by destruct (stop_interval_view p) as (? & ? & ? & ? & ? & _).
Qed.

Lemma render_view (b : bool) (p : Poll) :
  data (render b p) = data p ∧ error (render b p) = error p ∧
  reported (render b p) = reported p ∧ lastFetch (render b p) = lastFetch p ∧
  loading (render b p) = loading p.
Proof.
  unfold render.
  destruct (effects_view (set_enabled b (effect_cleanup p))) as (-> & -> & -> & -> & ->).
  simpl. by destruct (effect_cleanup_view p) as (? & ? & ? & ? & ? & _).
Qed.

Lemma resume_view (now : Z) (res : FetchResult) (p : Poll) :
  mountedRef p = true →
  (data (resume now res p), error (resume now res p)) =
    view [Settled 0 now res] (data p, error p) ∧
  reported (resume now res p) = reported p ++ reports [Settled 0 now res].
Proof.
  intros Hm. unfold resume, finally, catch, view, reports.
  destruct res as [msg|st|[] [d|] err]; simpl; rewrite ?Hm; simpl; rewrite ?Hm; simpl;
    by rewrite ?app_nil_r.
Qed.

Lemma step_view (ev : Event) (p p' : Poll) :
  mountedRef p = true → keeps_mounted ev → step ev p = Some p' →
  mountedRef p' = true ∧
  (data p', error p') = view [ev] (data p, error p) ∧
  reported p' = reported p ++ reports [ev].
Proof.
  intros Hm Hev. destruct ev as [t|r now res| |b|]; simpl in Hev |- *; [| | | |done].
  - case_decide; [|done]. intros [= <-].
    destruct (fetchData_view p) as (-> & -> & -> & _ & _ & -> & _).
    by rewrite app_nil_r.
  - case_decide; [|done]. intros [= <-].
    destruct (PollingFacts.resume_fields now res (set_inflight (inflight p ∖ {[r]}) p))
      as (_ & _ & _ & _ & -> & _).
    split; [done|].
    by destruct (resume_view now res (set_inflight (inflight p ∖ {[r]}) p) Hm) as [-> ->].
  - intros [= <-]. unfold refresh.
    destruct (fetchData_view (set_loading true p)) as (-> & -> & -> & _ & _ & -> & _).
    simpl. by rewrite app_nil_r.
  - intros [= <-]. rewrite PollingFacts.render_mounted.
    destruct (render_view b p) as (-> & -> & -> & _). by rewrite app_nil_r.
Qed.

Lemma view_cons (ev : Event) (evs : list Event) (v : option DashboardData * option string) :
  view (ev :: evs) v = view evs (view [ev] v).
Proof. done. Qed.

Lemma reports_cons (ev : Event) (evs : list Event) :
  reports (ev :: evs) = reports [ev] ++ reports evs.
Proof. unfold reports. simpl. by rewrite app_nil_r. Qed.

(** X17.  While the hook is mounted, the snapshot and the error it
    returns are decided by the fetches that settled, in their order: a
    fetch that succeeded replaces the snapshot and clears the error, one
    that failed sets the error to its message and keeps the snapshot;
    ticks, refreshes and renders change neither.  The messages handed to
    [onError] are those of the failed fetches, in their order. *)
Theorem view_follows_settled_fetches (evs : list Event) (p p' : Poll) :
  mountedRef p = true → Forall keeps_mounted evs → run evs p = Some p' →
  (data p', error p') = view evs (data p, error p) ∧
  reported p' = reported p ++ reports evs.
Proof.
  revert p. induction evs as [|ev evs IH]; intros p Hm Hevs; cbn [run].
  - intros [= <-]. by rewrite app_nil_r.
  - destruct (step ev p) as [p1|] eqn:Hstep; cbn [mbind option_bind]; [|done].
    apply Forall_cons in Hevs as [Hev Hevs]. intros Hrun.
    destruct (step_view ev p p1 Hm Hev Hstep) as (Hm1 & Hv1 & Hr1).
    destruct (IH p1 Hm1 Hevs Hrun) as [Hv Hr].
    split.
    + by rewrite Hv, Hv1, (view_cons ev evs).
    + by rewrite Hr, Hr1, <- app_assoc, (reports_cons ev evs).
Qed.

(** A fetch that succeeds, then one that the server answers with 500. *)
Lemma view_follows_settled_fetches_witness :
  let x := getDashboardData 0 empty in
  let evs := [Settled 0 7 (Body true (Some x) None); Tick 1; Settled 2 9 (HttpStatus 500)] in
  mountedRef (mount true) = true ∧ Forall keeps_mounted evs ∧
  ∃ p', run evs (mount true) = Some p' ∧
        data p' = Some x ∧ reported p' = [failure_message (HttpStatus 500)].
Proof.
  intros x evs.
  assert (Forall keeps_mounted evs) as Hevs by (repeat constructor).
  split; [reflexivity|]. split; [exact Hevs|].
  destruct (run evs (mount true)) as [p'|] eqn:Hrun; [|vm_compute in Hrun; discriminate].
  exists p'. split; [reflexivity|].
  destruct (view_follows_settled_fetches evs (mount true) p' eq_refl Hevs Hrun) as [Hv Hr].
  split; [|exact Hr].
  change (data p') with (data p', error p').1. rewrite Hv. reflexivity.
Defined.

(** *** The interval *)

Lemma step_interval (ev : Event) (p p' : Poll) :
  Timed p → has_cleanup p = enabled p → keeps_mounted ev → step ev p = Some p' →
  Timed p' ∧ has_cleanup p' = enabled p'.
Proof.
  intros Ht Hc Hev. destruct ev as [t|r now res| |b|]; simpl in Hev |- *; [| | | |done].
  - case_decide; [|done]. intros [= <-].
    destruct (PollingFacts.fetchData_other p) as (Hr & Hi & Hc' & He & _).
    unfold Timed. by rewrite Hr, Hi, Hc', He.
  - case_decide; [|done]. intros [= <-].
    destruct (PollingFacts.resume_fields now res (set_inflight (inflight p ∖ {[r]}) p))
      as (_ & Hi & Hr & Hc' & _ & He & _).
    unfold Timed. by rewrite Hi, Hr, Hc', He.
  - intros [= <-]. unfold refresh.
    destruct (PollingFacts.fetchData_other (set_loading true p)) as (Hr & Hi & Hc' & He & _).
    unfold Timed. by rewrite Hr, Hi, Hc', He.
  - intros [= <-]. unfold render.
    destruct (PollingFacts.effect_cleanup_timed p Ht) as (Hr & Hi & _).
    destruct (PollingFacts.effects_timed (set_enabled b (effect_cleanup p)) Hr Hi)
      as (Ht' & Hon & Hoff & He).
    split; [done|]. rewrite He. simpl. simpl in Hon, Hoff. destruct b.
    + destruct Ht' as [(_ & Hi' & _) | (t & _ & _ & ->)]; [|done].
      rewrite Hon in Hi' by done. set_solver.
    + destruct Ht' as [(_ & _ & ->) | (t & _ & Hi' & _)]; [done|].
      rewrite Hoff in Hi' by done. set_solver.
Qed.

(** X18.  While the hook is mounted, however often it is rendered with
    [enabled] changed, exactly one interval runs when the last render
    was enabled, the one [intervalRef] holds, and none runs when it was
    not: no interval is left behind. *)
Theorem interval_follows_enabled (b : bool) (evs : list Event) (p : Poll) :
  Forall keeps_mounted evs → run evs (mount b) = Some p →
  (enabled p = true → ∃ t, intervals p = {[t]} ∧ intervalRef p = Some t) ∧
  (enabled p = false → intervals p = ∅ ∧ intervalRef p = None).
Proof.
  intros Hevs Hrun.
  assert (Timed p ∧ has_cleanup p = enabled p) as [Ht Hc].
  { assert (Timed (mount b) ∧ has_cleanup (mount b) = enabled (mount b)) as Hinit.
    { pose proof (step_interval (Render b) initial (mount b)) as Hs.
      apply Hs; [by left|done|done|done]. }
    revert Hinit Hrun. generalize (mount b). intros p0. revert p0.
    induction evs as [|ev evs IH]; intros p0 [Ht0 Hc0]; simpl.
    - by intros [= <-].
    - destruct (step ev p0) as [p1|] eqn:Hstep; simpl; [|done].
      apply Forall_cons in Hevs as [Hev Hevs].
      apply IH; [done|]. by eapply step_interval. }
  split; intros He; rewrite He in Hc.
  - destruct Ht as [(_ & _ & ?) | (t & ? & ? & _)]; [congruence|]. by exists t.
  - destruct Ht as [(? & ? & _) | (t & _ & _ & ?)]; [done|congruence].
Qed.

(** The hook is mounted enabled, disabled, enabled again. *)
Lemma interval_follows_enabled_witness :
  Forall keeps_mounted [Render false; Render true; Tick 2] ∧
  ∃ p, run [Render false; Render true; Tick 2] (mount true) = Some p ∧
       enabled p = true ∧ ∃ t, intervals p = {[t]} ∧ intervalRef p = Some t.
Proof.
  assert (Forall keeps_mounted [Render false; Render true; Tick 2]) as Hevs
    by (repeat constructor).
  split; [exact Hevs|].
  destruct (run [Render false; Render true; Tick 2] (mount true)) as [p|] eqn:Hrun;
    [|vm_compute in Hrun; discriminate].
  assert (enabled p = true) as He.
  { vm_compute in Hrun. injection Hrun as <-. reflexivity. }
  exists p. split; [reflexivity|]. split; [exact He|].
  destruct (interval_follows_enabled true _ p Hevs Hrun) as [Hon _].
  exact (Hon He).
Defined.

(** *** The unmount *)

Lemma step_after_unmount (ev : Event) (p p' : Poll) :
  mountedRef p = false → intervals p = ∅ → no_render ev → step ev p = Some p' →
  mountedRef p' = false ∧ intervals p' = ∅ ∧
  data p' = data p ∧ error p' = error p ∧ lastFetch p' = lastFetch p ∧
  reported p' = reported p ∧ next p' = next p ∧ inflight p' ⊆ inflight p.
Proof.
  intros Hm Hi Hev. destruct ev as [t|r now res| |b|]; simpl in Hev |- *; [| | |done|].
  - case_decide as Hin; [|done]. rewrite Hi in Hin. set_solver.
  - case_decide; [|done]. intros [= <-]. unfold resume, finally, catch.
    destruct res as [msg|st|[] [d|] err]; simpl; rewrite ?Hm; simpl; rewrite ?Hm; simpl;
      split_and!; try done; set_solver.
  - intros [= <-]. unfold refresh, fetchData. simpl. rewrite Hm. simpl. done.
  - intros [= <-]. unfold unmount. simpl.
    destruct (effect_cleanup_view p)
      as (-> & -> & -> & -> & _ & _ & _ & -> & -> & _ & Hsub).
    split_and!; try done. set_solver.
Qed.

(** X19.  After the unmount no interval runs, and whatever follows, a
    fetch that was under way settling, a tick, a call of [refresh],
    changes neither the snapshot nor the error nor the time of the last
    fetch, hands nothing to [onError] and starts no fetch. *)
Theorem unmounted_poll_is_inert (b : bool) (before after : list Event) (p p' : Poll) :
  run before (mount b) = Some p →
  Forall no_render after →
  run after (unmount p) = Some p' →
  intervals p' = ∅ ∧
  data p' = data p ∧ error p' = error p ∧ lastFetch p' = lastFetch p ∧
  reported p' = reported p ∧ next p' = next p ∧ inflight p' ⊆ inflight p.
Proof.
  intros Hrun Hevs Hafter.
  destruct (PollingFacts.mount_invariant b) as (Hg0 & Ht0 & _).
  destruct (PollingFacts.run_guarded before _ p Hg0 Ht0 Hrun) as [_ Ht].
  assert (mountedRef (unmount p) = false ∧ intervals (unmount p) = ∅ ∧
          data (unmount p) = data p ∧ error (unmount p) = error p ∧
          lastFetch (unmount p) = lastFetch p ∧ reported (unmount p) = reported p ∧
          next (unmount p) = next p ∧ inflight (unmount p) ⊆ inflight p) as Hinit.
  { unfold unmount. simpl.
    destruct (PollingFacts.effect_cleanup_timed p Ht) as (_ & -> & _).
    destruct (effect_cleanup_view p)
      as (-> & -> & -> & -> & _ & _ & _ & -> & -> & _).
    done. }
  revert Hinit Hafter. generalize (unmount p). intros q. revert q.
  induction after as [|ev evs IH]; intros q Hq; simpl.
  - intros [= <-]. tauto.
  - destruct (step ev q) as [q1|] eqn:Hstep; simpl; [|done].
    apply Forall_cons in Hevs as [Hev Hevs]. apply IH; [done|].
    destruct Hq as (Hm & Hi & Hd & He & Hl & Hr & Hn & Hin).
    destruct (step_after_unmount ev q q1 Hm Hi Hev Hstep)
      as (Hm1 & Hi1 & Hd1 & He1 & Hl1 & Hr1 & Hn1 & Hin1).
    split_and!; try congruence. set_solver.
Qed.

(** The component unmounts while its first fetch is under way; the fetch
    then succeeds. *)
Lemma unmounted_poll_is_inert_witness :
  let x := getDashboardData 0 empty in
  let after := [Settled 0 5 (Body true (Some x) None); Refresh] in
  Forall no_render after ∧
  ∃ p p', run [] (mount true) = Some p ∧ run after (unmount p) = Some p' ∧
          data p' = None ∧ intervals p' = ∅.
Proof.
  intros x after.
  assert (Forall no_render after) as Hevs by (repeat constructor).
  split; [exact Hevs|].
  destruct (run after (unmount (mount true))) as [p'|] eqn:Hafter;
    [|vm_compute in Hafter; discriminate].
  exists (mount true), p'. split; [reflexivity|]. split; [exact Hafter|].
  destruct (unmounted_poll_is_inert true [] after (mount true) p' eq_refl Hevs Hafter)
    as (Hi & Hd & _).
  split; [rewrite Hd; reflexivity|exact Hi].
Defined.

(** *** A hook that is not enabled *)

(** X20.  A hook that is mounted with [enabled] false and never rendered
    with [enabled] true never fetches: no interval runs, no request is
    made, nothing is reported, and what it returns stays what it
    returned at first, no snapshot, no error and [loading] true. *)
Theorem disabled_poll_never_fetches (evs : list Event) (p : Poll) :
  Forall (λ ev, ev ≠ Render true) evs →
  run evs (mount false) = Some p →
  data p = None ∧ error p = None ∧ lastFetch p = None ∧ loading p = true ∧
  intervals p = ∅ ∧ inflight p = ∅ ∧ next p = 0%nat ∧ reported p = [].
Proof.
  intros Hevs Hrun.
  set (Idle := λ q : Poll,
         enabled q = false ∧ has_cleanup q = false ∧ intervalRef q = None ∧
         data q = None ∧ error q = None ∧ lastFetch q = None ∧ loading q = true ∧
         intervals q = ∅ ∧ inflight q = ∅ ∧ next q = 0%nat ∧ reported q = []).
  assert (Idle p) as (_ & _ & _ & Hp); [|exact Hp].
  assert (Idle (mount false)) as Hinit by (by vm_compute).
  revert Hinit Hrun. generalize (mount false). intros q. revert q.
  induction evs as [|ev evs IH]; intros q Hq; simpl.
  - by intros [= <-].
  - destruct (step ev q) as [q1|] eqn:Hstep; simpl; [|done].
    apply Forall_cons in Hevs as [Hev Hevs]. apply IH; [done|].
    destruct Hq as (He & Hc & Hr & Hd & Her & Hl & Hlo & Hi & Hin & Hn & Hrep).
    destruct ev as [t|r now res| |b|]; simpl in Hstep.
    + case_decide as Ht; [|done]. rewrite Hi in Ht. set_solver.
    + case_decide as Ht; [|done]. rewrite Hin in Ht. set_solver.
    + injection Hstep as <-. unfold refresh, fetchData. simpl. rewrite He.
      rewrite orb_true_r. by split_and!.
    + injection Hstep as <-. destruct b; [done|].
      unfold render, effect_cleanup. rewrite Hc. unfold effects. simpl.
      unfold stop_interval. simpl. rewrite Hr. simpl. by split_and!.
    + injection Hstep as <-. unfold unmount, effect_cleanup. rewrite Hc. simpl.
      by split_and!.
Qed.

(** A disabled hook whose [refresh] is called. *)
Lemma disabled_poll_never_fetches_witness :
  Forall (λ ev, ev ≠ Render true) [Refresh; Render false; Refresh] ∧
  ∃ p, run [Refresh; Render false; Refresh] (mount false) = Some p ∧
       loading p = true ∧ inflight p = ∅.
Proof.
  assert (Forall (λ ev, ev ≠ Render true) [Refresh; Render false; Refresh]) as Hevs
    by (repeat constructor; discriminate).
  split; [exact Hevs|].
  destruct (run [Refresh; Render false; Refresh] (mount false)) as [p|] eqn:Hrun;
    [|vm_compute in Hrun; discriminate].
  exists p. split; [reflexivity|].
  destruct (disabled_poll_never_fetches _ p Hevs Hrun) as (_ & _ & _ & Hlo & _ & Hin & _).
  split; [exact Hlo|exact Hin].
Defined.

(** X21.  Disabling the hook stops the interval but not a fetch that is
    under way: when that fetch succeeds afterwards, the hook, though
    disabled, takes its snapshot, clears the error and is no longer
    loading. *)
Theorem disabling_keeps_request (b : bool) (evs : list Event) (p : Poll)
    (r : nat) (now : Z) (d : DashboardData) (err : option string) :
  run evs (mount b) = Some p → mountedRef p = true → r ∈ inflight p →
  intervals (render false p) = ∅ ∧
  ∃ p', step (Settled r now (Body true (Some d) err)) (render false p) = Some p' ∧
        enabled p' = false ∧ data p' = Some d ∧ error p' = None ∧
        lastFetch p' = Some now ∧ loading p' = false ∧ fetchingRef p' = false ∧
        inflight p' = ∅ ∧ intervals p' = ∅.
Proof.
  intros Hrun Hm Hr.
  destruct (PollingFacts.mount_invariant b) as (Hg0 & Ht0 & _).
  destruct (PollingFacts.run_guarded evs _ p Hg0 Ht0 Hrun) as [Hg Ht].
  destruct (PollingFacts.render_invariant false p Hg Ht) as (Hg' & Ht' & He & Hoff & _).
  specialize (Hoff eq_refl).
  assert (inflight (render false p) = inflight p) as Hin.
  { unfold render, effects. simpl.
    destruct (stop_interval_view (set_enabled false (effect_cleanup p)))
      as (_ & _ & _ & _ & _ & _ & _ & _ & -> & _).
    simpl. by destruct (effect_cleanup_view p) as (_ & _ & _ & _ & _ & _ & _ & _ & -> & _). }
  assert (mountedRef (render false p) = true) as Hm'
    by (by rewrite PollingFacts.render_mounted).
  split; [done|]. cbn [step]. rewrite decide_True by (by rewrite Hin).
  eexists. split; [reflexivity|].
  remember (set_inflight (inflight (render false p) ∖ {[r]}) (render false p)) as q eqn:Hq.
  assert (mountedRef q = true ∧ enabled q = false ∧ intervals q = ∅ ∧ inflight q = ∅)
    as (Hmq & Heq & Hiq & Hinq).
  { subst q. cbn [mountedRef enabled intervals inflight set_inflight].
    split_and!; try done. rewrite Hin. destruct Hg as [[Hemp | [r' Hone]] _].
    - rewrite Hemp in Hr. set_solver.
    - rewrite Hone in *. set_solver. }
  clear Hq. unfold resume, finally. simpl. rewrite Hmq. simpl. rewrite Hmq. simpl.
  by split_and!.
Qed.

(** The hook is disabled while its first fetch is under way. *)
Lemma disabling_keeps_request_witness :
  let x := getDashboardData 0 empty in
  run [] (mount true) = Some (mount true) ∧ mountedRef (mount true) = true ∧
  (0%nat ∈ inflight (mount true)) ∧
  ∃ p', step (Settled 0 4 (Body true (Some x) None)) (render false (mount true)) = Some p' ∧
        enabled p' = false ∧ data p' = Some x.
Proof.
  intros x.
  assert (0%nat ∈ inflight (mount true)) as Hr by (vm_compute; set_solver).
  split; [reflexivity|]. split; [reflexivity|]. split; [exact Hr|].
  destruct (disabling_keeps_request true [] (mount true) 0 4 x None eq_refl eq_refl Hr)
    as (_ & p' & Hstep & He & Hd & _).
  exists p'. split; [exact Hstep|]. split; [exact He|exact Hd].
Defined.

End PollingTraceFacts.

(** ** The supervisor after the fallback *)

Module DashboardTraceFacts.
Import Store Dashboard DashboardTraces.

Lemma failed_over_render_once (d : State) :
  FailedOver d → FailedOver (render_once d) ∧ ws (render_once d) = ws d.
Proof. by intros (? & ? & ? & ?). Qed.

Lemma failed_over_wants_fallback (m : ConnectionMode) (d : State) :
  FailedOver d →
  wants_fallback {| mode := m; ws := ws d; poll := poll d |} = bool_decide (m = websocket).
Proof.
  intros (_ & He & _). unfold wants_fallback. simpl. rewrite He.
  by destruct (bool_decide (m = websocket)).
Qed.

Lemma failed_over_step (o : WebSocketHook.Options) (ev : Event) (d d' : State) :
  FailedOver d → step o ev d = Some d' → FailedOver d' ∧ ws d' = ws d.
Proof.
  intros Hf. pose proof Hf as (Hm & He & Hs & Ht).
  destruct ev as [ev|ev| |newMode]; simpl.
  - destruct ev as [w|w payload|w|w|t| |]; simpl; try done.
    all: rewrite ?Hs, ?Ht, ?lookup_empty; case_decide as Hd; [|done].
    + done.
    + done.
    + by destruct Hd.
    + by destruct Hd.
    + set_solver.
  - destruct ev; try done.
    all: destruct (PollingHook.step _ (poll d)) as [p|]; [|done].
    all: by intros [= <-].
  - intros [= <-]. unfold render.
    assert (wants_fallback (render_once d) = false) as ->.
    { unfold wants_fallback. simpl. rewrite Hm. done. }
    by apply failed_over_render_once.
  - intros [= <-]. unfold handleModeChange. destruct newMode as [m|]; [|done].
    case_decide; [done|]. unfold render.
    set (d1 := {| mode := m; ws := ws d; poll := poll d |}).
    assert (wants_fallback (render_once d1) = bool_decide (m = websocket)) as ->.
    { unfold wants_fallback. simpl. rewrite He. by destruct (bool_decide (m = websocket)). }
    destruct m; [|congruence].
    rewrite bool_decide_eq_true_2 by done. by split_and!.
Qed.

(** X22.  Once the dashboard has fallen back to polling because the push
    transport used up its attempts, it stays there: the dashboard never
    calls [reconnect], so the push transport keeps its error and has
    neither socket nor timeout, no event of it can happen, and a click
    that selects websocket is undone by the fallback effect in the
    render it causes.  The mode is polling after every event, the
    snapshot shown is the poll loop's, and the poll loop runs. *)
Theorem fallback_is_permanent
    (o : WebSocketHook.Options) (m : ConnectionMode) (before after : list Event)
    (d d' : State) :
  run o before (mount o m) = Some d → FailedOver d →
  run o after d = Some d' →
  mode d' = polling ∧ ws d' = ws d ∧ FailedOver d' ∧
  activeData d' = PollingHook.data (poll d') ∧
  pull_active d' ∧ ¬ push_active d'.
Proof.
  intros Hbefore Hf Hafter.
  assert (Supervised d') as Hsup.
  { eapply DashboardFacts.run_supervised; [|exact Hafter].
    eapply DashboardFacts.run_supervised; [|exact Hbefore].
    apply DashboardFacts.mount_supervised. }
  assert (FailedOver d' ∧ ws d' = ws d) as [Hf' Hws].
  { clear Hbefore Hsup. revert d Hf Hafter.
    induction after as [|ev evs IH]; intros d Hf; simpl.
    - by intros [= <-].
    - destruct (step o ev d) as [d1|] eqn:Hstep; simpl; [|done].
      destruct (failed_over_step o ev d d1 Hf Hstep) as [Hf1 <-]. by apply IH. }
  pose proof Hf' as (Hm & _ & Hs & Ht).
  destruct Hsup as (_ & _ & _ & _ & _ & Hon).
  split_and!; try done.
  - unfold activeData. rewrite Hm. done.
  - by apply Hon.
  - unfold push_active. rewrite Hs, Ht. tauto.
Qed.

(** A dashboard whose push transport is allowed one retry: the two
    attempts fail, the next render falls back, and the user then selects
    websocket. *)
Lemma fallback_is_permanent_witness :
  let o := {| WebSocketHook.url_ok := true; WebSocketHook.reconnectInterval := 3000;
              WebSocketHook.maxReconnectAttempts := 1 |} in
  let before := [Push (WebSocketHook.Errored 0); Push (WebSocketHook.Closed 0);
                 Push (WebSocketHook.TimerFired 1); Push (WebSocketHook.Errored 2);
                 Push (WebSocketHook.Closed 2); Rendered] in
  ∃ d d', run o before (mount o websocket) = Some d ∧ FailedOver d ∧
          run o [ModeChange (Some websocket)] d = Some d' ∧
          mode d' = polling.
Proof.
  intros o before.
  destruct (run o before (mount o websocket)) as [d|] eqn:Hbefore;
    [|vm_compute in Hbefore; discriminate].
  assert (FailedOver d) as Hf.
  { vm_compute in Hbefore. injection Hbefore as <-. split_and!; reflexivity. }
  destruct (run o [ModeChange (Some websocket)] d) as [d'|] eqn:Hafter;
    [|simpl in Hafter; discriminate].
  exists d, d'. split; [reflexivity|]. split; [exact Hf|]. split; [exact Hafter|].
  by destruct (fallback_is_permanent o websocket before _ d d' Hbefore Hf Hafter) as [Hm _].
Defined.

End DashboardTraceFacts.
